(** * py-DSA queues: array-backed and linked queues and deques

    A shallow embedding of [pythondsa/src/queues.py].  Every method of the
    Python classes is a computation in a small state-and-exception monad:
    it takes the object's state and returns an outcome (a value or the
    exception raised) together with the state the object is left in.  The
    state returned on an exception is the state at the point of the [raise],
    so partial mutation before a failure is visible in the model. *)

From stdpp Require Import base decidable option list gmap.
From Stdlib Require Import ZArith Lia.

Open Scope Z_scope.

(** ** Exceptions and outcomes *)

Inductive exn : Set :=
  | Empty
  | IndexError
  | ValueError
  | TypeError
  | NotImplementedError
  | ZeroDivisionError
  | AttributeError.

Inductive outcome (A : Type) : Type :=
  | Ok (a : A)
  | Raise (e : exn).
Arguments Ok {A} a.
Arguments Raise {A} e.

(** ** The state-and-exception monad *)

Definition M (S A : Type) : Type := S -> outcome A * S.

Definition ret {S A} (a : A) : M S A := fun s => (Ok a, s).

Definition raise {S A} (e : exn) : M S A := fun s => (Raise e, s).

Definition bind {S A B} (m : M S A) (k : A -> M S B) : M S B :=
  fun s => match m s with
           | (Ok a, s') => k a s'
           | (Raise e, s') => (Raise e, s')
           end.

Definition get {S} : M S S := fun s => (Ok s, s).

Definition put {S} (s : S) : M S unit := fun _ => (Ok tt, s).

Definition modify {S} (f : S -> S) : M S unit := fun s => (Ok tt, f s).

Definition lift {S A} (r : outcome A) : M S A := fun s => (r, s).

Declare Scope py_scope.
Delimit Scope py_scope with py.
Notation "x <- m ;; k" := (bind m (fun x => k))
  (at level 100, m at level 99, k at level 200, right associativity) : py_scope.
Notation "m ;; k" := (bind m (fun _ => k))
  (at level 100, k at level 200, right associativity) : py_scope.
Open Scope py_scope.

(** [for x in xs: body x] *)
Fixpoint for_each {S} (xs : list Z) (body : Z -> M S unit) : M S unit :=
  match xs with
  | [] => ret tt
  | x :: xs' => body x ;; for_each xs' body
  end.

(** [for x in xs: if test x: break]; the result is the value of the loop
    variable at the [break], or [None] when the loop ran to its end. *)
Fixpoint for_break {S} (xs : list Z) (test : Z -> M S bool) : M S (option Z) :=
  match xs with
  | [] => ret None
  | x :: xs' => b <- test x ;; if b : bool then ret (Some x) else for_break xs' test
  end.

(** [for x in xs: acc = body x acc]: a loop that threads a local variable. *)
Fixpoint for_fold {S B} (xs : list Z) (acc : B) (body : Z -> B -> M S B) : M S B :=
  match xs with
  | [] => ret acc
  | x :: xs' => acc' <- body x acc ;; for_fold xs' acc' body
  end.

(** ** Python primitives *)

(** [range(n)] and [range(start, stop, 1)] *)
Definition range_up (start stop : Z) : list Z :=
  map (fun k => start + Z.of_nat k) (seq 0 (Z.to_nat (stop - start))).

Definition range (n : Z) : list Z := range_up 0 n.

(** [range(start, stop, -1)] *)
Definition range_down (start stop : Z) : list Z :=
  map (fun k => start - Z.of_nat k) (seq 0 (Z.to_nat (start - stop))).

Definition len {T} (l : list T) : Z := Z.of_nat (length l).

(** Python accepts the indices [-len(l) <= i < len(l)] and counts the negative
    ones from the end. *)
Definition py_index {T} (l : list T) (i : Z) : option nat :=
  if decide (0 <= i < len l) then Some (Z.to_nat i)
  else if decide (- len l <= i < 0) then Some (Z.to_nat (len l + i))
  else None.

(** [l[i]] *)
Definition py_getitem {T} (l : list T) (i : Z) : outcome T :=
  match py_index l i with
  | Some k => match l !! k with Some x => Ok x | None => Raise IndexError end
  | None => Raise IndexError
  end.

(** [l[i] = x] *)
Definition py_setitem {T} (l : list T) (i : Z) (x : T) : outcome (list T) :=
  match py_index l i with
  | Some k => Ok (<[k:=x]> l)
  | None => Raise IndexError
  end.

(** [a % b]: Python's remainder has the sign of the divisor, as [Z.modulo]. *)
Definition py_mod (a b : Z) : outcome Z :=
  if decide (b = 0) then Raise ZeroDivisionError else Ok (a mod b).

(** [[None] * n] *)
Definition py_nones {T} (n : Z) : list (option T) := replicate (Z.to_nat n) None.

(** ** ArrayQueue *)

Module ArrayQueue.
Section ArrayQueue.
Context {A : Type}.

(** A Python value stored in a slot: [None] or an element. *)
Local Abbreviation val := (option A).

Definition DEFAULT_CAPACITY : Z := 10.

Record t : Type := mk { _data : list val; _size : Z; _front : Z }.

Definition set_data (d : list val) (self : t) : t :=
  {| _data := d; _size := _size self; _front := _front self |}.

Definition set_size (n : Z) (self : t) : t :=
  {| _data := _data self; _size := n; _front := _front self |}.

Definition set_front (f : Z) (self : t) : t :=
  {| _data := _data self; _size := _size self; _front := f |}.

Definition __init__ : t :=
  {| _data := py_nones DEFAULT_CAPACITY; _size := 0; _front := 0 |}.

Definition __len__ : M t Z := self <- get ;; ret (_size self).

(** [walk] is the local variable threaded through the loop. *)
Definition _resize (cap : Z) : M t unit :=
  self <- get ;;
  let old := _data self in
  modify (set_data (py_nones cap)) ;;
  for_fold (range (_size self)) (_front self) (fun k walk =>
    x <- lift (py_getitem old walk) ;;
    self <- get ;;
    d <- lift (py_setitem (_data self) k x) ;;
    modify (set_data d) ;;
    lift (py_mod (1 + walk) (len old))) ;;
  modify (set_front 0).

Definition is_empty : M t bool :=
  self <- get ;; ret (bool_decide (_size self = 0)).

Definition first : M t val :=
  e <- is_empty ;;
  if e : bool then raise Empty
  else self <- get ;; lift (py_getitem (_data self) (_front self)).

Definition enqueue (e : val) : M t unit :=
  self <- get ;;
  (if decide (_size self = len (_data self))
   then _resize (2 * len (_data self)) else ret tt) ;;
  self <- get ;;
  last_in_line <- lift (py_mod (_front self + _size self) (len (_data self))) ;;
  d <- lift (py_setitem (_data self) last_in_line e) ;;
  modify (set_data d) ;;
  modify (fun self => set_size (_size self + 1) self).

Definition dequeue : M t val :=
  e <- is_empty ;;
  if e : bool then raise Empty
  else
    self <- get ;;
    result <- lift (py_getitem (_data self) (_front self)) ;;
    d <- lift (py_setitem (_data self) (_front self) None) ;;
    modify (set_data d) ;;
    self <- get ;;
    f <- lift (py_mod (_front self + 1) (len (_data self))) ;;
    modify (set_front f) ;;
    modify (fun self => set_size (_size self - 1) self) ;;
    ret result.

End ArrayQueue.
Arguments t : clear implicits.
End ArrayQueue.

(** ** ArrayDeque *)

(** The argument of [deque[i]]: a slice, an [int], or a value of another type. *)
Inductive pyindex : Set :=
  | IdxSlice
  | IdxInt (i : Z)
  | IdxOther.

Module ArrayDeque.
Section ArrayDeque.
Context {A : Type} `{EqDecision A}.

Local Abbreviation val := (option A).

Definition DEFAULT_CAPACITY : Z := 10.

Record t : Type :=
  mk { _data : list val; _size : Z; _front : Z; _maxlen : option Z }.

Definition set_data (d : list val) (self : t) : t :=
  {| _data := d; _size := _size self; _front := _front self; _maxlen := _maxlen self |}.

Definition set_size (n : Z) (self : t) : t :=
  {| _data := _data self; _size := n; _front := _front self; _maxlen := _maxlen self |}.

Definition set_front (f : Z) (self : t) : t :=
  {| _data := _data self; _size := _size self; _front := f; _maxlen := _maxlen self |}.

(** [not self._maxlen or self._maxlen >= DEFAULT_CAPACITY]: [None] and [0]
    are falsy. *)
Definition unbounded_start (maxlen : option Z) : bool :=
  match maxlen with
  | None => true
  | Some m => bool_decide (m = 0) || bool_decide (m >= DEFAULT_CAPACITY)
  end.

Definition fresh_data (maxlen : option Z) : list val :=
  if unbounded_start maxlen then py_nones DEFAULT_CAPACITY
  else py_nones (default 0 maxlen).

Definition __init__ (maxlen : option Z) : t :=
  {| _size := 0; _front := 0; _maxlen := maxlen; _data := fresh_data maxlen |}.

(** The index computation shared by [__getitem__] and [__setitem__]. *)
Definition locate (i : Z) : M t Z :=
  self <- get ;;
  if decide (i < _size self * -1 \/ i > _size self - 1) then raise IndexError
  else if decide (i < 0)
       then lift (py_mod (_front self + _size self + i) (len (_data self)))
       else lift (py_mod (_front self + i) (len (_data self))).

Definition __getitem__ (i : pyindex) : M t val :=
  match i with
  | IdxSlice => raise NotImplementedError
  | IdxInt i =>
      index <- locate i ;;
      self <- get ;;
      lift (py_getitem (_data self) index)
  | IdxOther => raise TypeError
  end.

Definition __setitem__ (i : pyindex) (v : val) : M t unit :=
  match i with
  | IdxSlice => raise NotImplementedError
  | IdxInt i =>
      index <- locate i ;;
      self <- get ;;
      d <- lift (py_setitem (_data self) index v) ;;
      modify (set_data d)
  | IdxOther => raise TypeError
  end.

Definition __len__ : M t Z := self <- get ;; ret (_size self).

Definition _resize (cap : Z) : M t unit :=
  self <- get ;;
  let old := _data self in
  modify (set_data (py_nones cap)) ;;
  for_fold (range (_size self)) (_front self) (fun k walk =>
    x <- lift (py_getitem old walk) ;;
    self <- get ;;
    d <- lift (py_setitem (_data self) k x) ;;
    modify (set_data d) ;;
    lift (py_mod (1 + walk) (len old))) ;;
  modify (set_front 0).

Definition add_first (e : val) : M t unit :=
  self <- get ;;
  (if decide (_size self = len (_data self))
   then _resize (2 * len (_data self)) else ret tt) ;;
  self <- get ;;
  f <- lift (py_mod (_front self - 1) (len (_data self))) ;;
  modify (set_front f) ;;
  self <- get ;;
  d <- lift (py_setitem (_data self) (_front self) e) ;;
  modify (set_data d) ;;
  modify (fun self => set_size (_size self + 1) self).

Definition add_last (e : val) : M t unit :=
  self <- get ;;
  (if decide (_size self = len (_data self))
   then _resize (2 * len (_data self)) else ret tt) ;;
  self <- get ;;
  last_in_line <- lift (py_mod (_front self + _size self) (len (_data self))) ;;
  d <- lift (py_setitem (_data self) last_in_line e) ;;
  modify (set_data d) ;;
  modify (fun self => set_size (_size self + 1) self).

Definition clear : M t unit :=
  modify (set_size 0) ;;
  modify (set_front 0) ;;
  self <- get ;;
  modify (set_data (fresh_data (_maxlen self))).

Definition count (value : val) : M t Z :=
  self <- get ;;
  for_fold (range (_size self)) 0 (fun i value_count =>
    self <- get ;;
    index <- lift (py_mod (_front self + i) (len (_data self))) ;;
    x <- lift (py_getitem (_data self) index) ;;
    ret (if decide (x = value) then value_count + 1 else value_count)).

(** The two shifting loops of [remove].  Everything indented under the [for]
    in the source is in the loop body, the clearing of the end slot and the
    updates of [_front] and [_size] included. *)
Definition shift_towards_front (i : Z) : M t unit :=
  self <- get ;;
  current <- lift (py_mod (_front self + i) (len (_data self))) ;;
  next <- lift (py_mod (current + 1) (len (_data self))) ;;
  x <- lift (py_getitem (_data self) next) ;;
  d <- lift (py_setitem (_data self) current x) ;;
  modify (set_data d) ;;
  self <- get ;;
  last <- lift (py_mod (_front self + _size self - 1) (len (_data self))) ;;
  d <- lift (py_setitem (_data self) last None) ;;
  modify (set_data d).

Definition shift_towards_back (i : Z) : M t unit :=
  self <- get ;;
  current <- lift (py_mod (_front self + i) (len (_data self))) ;;
  prev <- lift (py_mod (current - 1) (len (_data self))) ;;
  x <- lift (py_getitem (_data self) prev) ;;
  d <- lift (py_setitem (_data self) current x) ;;
  modify (set_data d) ;;
  self <- get ;;
  d <- lift (py_setitem (_data self) (_front self) None) ;;
  modify (set_data d) ;;
  modify (fun self => set_front (_front self + 1) self) ;;
  modify (fun self => set_size (_size self - 1) self).

Definition remove (value : val) : M t unit :=
  self <- get ;;
  found <- for_break (range (_size self)) (fun i =>
    self <- get ;;
    current <- lift (py_mod (_front self + i) (len (_data self))) ;;
    x <- lift (py_getitem (_data self) current) ;;
    ret (bool_decide (x = value))) ;;
  match found with
  | None => raise ValueError
  | Some i =>
      self <- get ;;
      if decide (i > _size self `div` 2)
      then for_each (range_up i (_size self - 1)) shift_towards_front
      else for_each (range_down i 0) shift_towards_back
  end.

Definition is_empty : M t bool :=
  self <- get ;; ret (bool_decide (_size self = 0)).

Definition is_full : M t bool :=
  self <- get ;; ret (bool_decide (Some (len (_data self)) = _maxlen self)).

Definition delete_first : M t val :=
  e <- is_empty ;;
  if e : bool then raise Empty
  else
    self <- get ;;
    result <- lift (py_getitem (_data self) (_front self)) ;;
    d <- lift (py_setitem (_data self) (_front self) None) ;;
    modify (set_data d) ;;
    self <- get ;;
    f <- lift (py_mod (_front self + 1) (len (_data self))) ;;
    modify (set_front f) ;;
    modify (fun self => set_size (_size self - 1) self) ;;
    ret result.

Definition delete_last : M t val :=
  e <- is_empty ;;
  if e : bool then raise Empty
  else
    self <- get ;;
    last_in_line <- lift (py_mod (_front self + _size self - 1) (len (_data self))) ;;
    result <- lift (py_getitem (_data self) last_in_line) ;;
    d <- lift (py_setitem (_data self) last_in_line None) ;;
    modify (set_data d) ;;
    modify (fun self => set_size (_size self - 1) self) ;;
    ret result.

Definition rotate (n : Z) : M t unit :=
  if decide (n >= 0)
  then for_each (range n) (fun step => e <- delete_last ;; add_first e)
  else for_each (range (Z.abs n)) (fun step => e <- delete_first ;; add_last e).

Definition first : M t val :=
  e <- is_empty ;;
  if e : bool then raise Empty
  else self <- get ;; lift (py_getitem (_data self) (_front self)).

Definition last : M t val :=
  e <- is_empty ;;
  if e : bool then raise Empty
  else
    self <- get ;;
    last_in_line <- lift (py_mod (_front self + _size self - 1) (len (_data self))) ;;
    lift (py_getitem (_data self) last_in_line).

(** *** The logical view of a deque *)

Definition capacity (d : t) : Z := len (_data d).

(** The slot of logical index [i]: physical index [(front + i) mod capacity]. *)
Definition slot (d : t) (i : Z) : val :=
  default None (_data d !! Z.to_nat ((_front d + i) mod capacity d)).

(** The contents in logical order, front first. *)
Definition elements (d : t) : list val :=
  (fun k => slot d (Z.of_nat k)) <$> seq 0 (Z.to_nat (_size d)).

(** The invariant of the circular buffer. *)
Record wf (d : t) : Prop := Wf {
  wf_capacity : 0 < capacity d;
  wf_front : 0 <= _front d < capacity d;
  wf_size : 0 <= _size d <= capacity d
}.

(** *** Sequences of calls

    A client that calls the methods one after the other and catches the
    exceptions: each call runs on the state its predecessor left. *)

Inductive op : Type :=
  | AddFirst (e : val)
  | AddLast (e : val)
  | DeleteFirst
  | DeleteLast
  | Remove (value : val)
  | Rotate (n : Z)
  | Clear
  | SetItem (i : pyindex) (v : val)
  | GetItem (i : pyindex)
  | First
  | Last
  | Count (value : val)
  | Len
  | IsEmpty
  | IsFull.

Definition exec (o : op) : M t unit :=
  match o with
  | AddFirst e => add_first e
  | AddLast e => add_last e
  | DeleteFirst => delete_first ;; ret tt
  | DeleteLast => delete_last ;; ret tt
  | Remove v => remove v
  | Rotate n => rotate n
  | Clear => clear
  | SetItem i v => __setitem__ i v
  | GetItem i => __getitem__ i ;; ret tt
  | First => first ;; ret tt
  | Last => last ;; ret tt
  | Count v => count v ;; ret tt
  | Len => __len__ ;; ret tt
  | IsEmpty => is_empty ;; ret tt
  | IsFull => is_full ;; ret tt
  end.

Definition run (ops : list op) (d : t) : t :=
  fold_left (fun d o => snd (exec o d)) ops d.

Definition is_insertion (o : op) : bool :=
  match o with AddFirst _ | AddLast _ => true | _ => false end.

Definition is_removal (o : op) : bool :=
  match o with DeleteFirst | DeleteLast | Remove _ => true | _ => false end.

Definition succeeds (o : op) (d : t) : bool :=
  match fst (exec o d) with Ok _ => true | Raise _ => false end.

(** Successful insertions minus successful removals along a run. *)
Fixpoint balance (ops : list op) (d : t) : Z :=
  match ops with
  | [] => 0
  | o :: ops' =>
      (if succeeds o d
       then (if is_insertion o then 1 else 0) - (if is_removal o then 1 else 0)
       else 0)
      + balance ops' (snd (exec o d))
  end.

(** What every deque built by the constructor and the methods satisfies,
    the ones that [remove] has left with a front index out of range included:
    the size is not negative, and a deque that holds elements has storage. *)
Definition sane (d : t) : Prop :=
  0 <= _size d /\ (0 < _size d -> 0 < capacity d).

(** The same count, started afresh by each successful [clear()]. *)
Definition ledger_step (o : op) (ok : bool) (acc : Z) : Z :=
  if ok then
    match o with
    | AddFirst _ | AddLast _ => acc + 1
    | DeleteFirst | DeleteLast | Remove _ => acc - 1
    | Clear => 0
    | _ => acc
    end
  else acc.

Fixpoint balance_since_clear (ops : list op) (d : t) (acc : Z) : Z :=
  match ops with
  | [] => acc
  | o :: ops' =>
      balance_since_clear ops' (snd (exec o d)) (ledger_step o (succeeds o d) acc)
  end.

Definition calls_remove (o : op) : bool :=
  match o with Remove _ => true | _ => false end.

(** A [maxlen] that is not negative. *)
Definition maxlen_valid (maxlen : option Z) : Prop :=
  match maxlen with Some m => 0 <= m | None => True end.

(** The calls that the contract makes fail: a removal or a peek on an empty
    deque, [remove] of a value that no logical slot holds, an integer index
    outside [-size .. size-1], and an index that is not an integer. *)
Definition fails_by_contract (o : op) (d : t) : Prop :=
  match o with
  | DeleteFirst | DeleteLast | First | Last => _size d = 0
  | Remove value =>
      (0 < _size d -> 0 < capacity d) /\
      forall i, 0 <= i < _size d -> slot d i <> value
  | GetItem (IdxInt i) | SetItem (IdxInt i) _ => i < - _size d \/ i > _size d - 1
  | GetItem _ | SetItem _ _ => True
  | _ => False
  end.

Definition expected_exn (o : op) : exn :=
  match o with
  | Remove _ => ValueError
  | GetItem IdxSlice | SetItem IdxSlice _ => NotImplementedError
  | GetItem (IdxInt _) | SetItem (IdxInt _) _ => IndexError
  | GetItem IdxOther | SetItem IdxOther _ => TypeError
  | _ => Empty
  end.

End ArrayDeque.
Arguments t : clear implicits.
Arguments op : clear implicits.
End ArrayDeque.

(** ** Linked nodes

    The nodes of the linked queues are objects shared by reference: the
    store maps a node's address to its two slots, and [tail._next = newest]
    updates the node in place, whoever else points to it. *)

Abbreviation loc := positive.

Record node (A : Type) : Type := Node { _element : option A; _next : option loc }.
Arguments Node {A} _element _next.
Arguments _element {A} n.
Arguments _next {A} n.

Abbreviation store A := (gmap loc (node A)).

(** [p._element], [p._next]: reading a slot of [None] raises [AttributeError]. *)
Definition deref {A} (h : store A) (p : option loc) : outcome (node A) :=
  match p with
  | Some l => match h !! l with Some n => Ok n | None => Raise AttributeError end
  | None => Raise AttributeError
  end.

(** [_Node(element, next)]: a new object, at an address not in use. *)
Definition alloc {A} (h : store A) (n : node A) : loc * store A :=
  let l := fresh (dom h) in (l, <[l:=n]> h).

(** ** LinkedQueue *)

Module LinkedQueue.
Section LinkedQueue.
Context {A : Type}.

Local Abbreviation val := (option A).

Record t : Type :=
  mk { heap : store A; _head : option loc; _tail : option loc; _size : Z }.

Definition set_heap (h : store A) (self : t) : t :=
  {| heap := h; _head := _head self; _tail := _tail self; _size := _size self |}.

Definition set_head (p : option loc) (self : t) : t :=
  {| heap := heap self; _head := p; _tail := _tail self; _size := _size self |}.

Definition set_tail (p : option loc) (self : t) : t :=
  {| heap := heap self; _head := _head self; _tail := p; _size := _size self |}.

Definition set_size (n : Z) (self : t) : t :=
  {| heap := heap self; _head := _head self; _tail := _tail self; _size := n |}.

Definition __init__ : t :=
  {| heap := ∅; _head := None; _tail := None; _size := 0 |}.

Definition __len__ : M t Z := self <- get ;; ret (_size self).

Definition is_empty : M t bool :=
  self <- get ;; ret (bool_decide (_size self = 0)).

Definition new_node (e : val) (next : option loc) : M t loc :=
  self <- get ;;
  let '(l, h) := alloc (heap self) (Node e next) in
  modify (set_heap h) ;;
  ret l.

(** [p._next = q] *)
Definition set_next (p q : option loc) : M t unit :=
  self <- get ;;
  n <- lift (deref (heap self) p) ;;
  match p with
  | Some l => modify (set_heap (<[l:=Node (_element n) q]> (heap self)))
  | None => raise AttributeError
  end.

Definition first : M t val :=
  e <- is_empty ;;
  if e : bool then raise Empty
  else
    self <- get ;;
    n <- lift (deref (heap self) (_head self)) ;;
    ret (_element n).

Definition dequeue : M t val :=
  e <- is_empty ;;
  if e : bool then raise Empty
  else
    self <- get ;;
    n <- lift (deref (heap self) (_head self)) ;;
    let answer := _element n in
    modify (set_head (_next n)) ;;
    modify (fun self => set_size (_size self - 1) self) ;;
    e <- is_empty ;;
    (if e : bool then modify (set_tail None) else ret tt) ;;
    ret answer.

Definition enqueue (e : val) : M t unit :=
  newest <- new_node e None ;;
  b <- is_empty ;;
  (if b : bool then modify (set_head (Some newest))
   else self <- get ;; set_next (_tail self) (Some newest)) ;;
  modify (set_tail (Some newest)) ;;
  modify (fun self => set_size (_size self + 1) self).

End LinkedQueue.
Arguments t : clear implicits.
End LinkedQueue.

(** ** CircularQueue *)

Module CircularQueue.
Section CircularQueue.
Context {A : Type}.

Local Abbreviation val := (option A).

Record t : Type := mk { heap : store A; _tail : option loc; _size : Z }.

Definition set_heap (h : store A) (self : t) : t :=
  {| heap := h; _tail := _tail self; _size := _size self |}.

Definition set_tail (p : option loc) (self : t) : t :=
  {| heap := heap self; _tail := p; _size := _size self |}.

Definition set_size (n : Z) (self : t) : t :=
  {| heap := heap self; _tail := _tail self; _size := n |}.

Definition __init__ : t := {| heap := ∅; _tail := None; _size := 0 |}.

Definition __len__ : M t Z := self <- get ;; ret (_size self).

Definition is_empty : M t bool :=
  self <- get ;; ret (bool_decide (_size self = 0)).

Definition new_node (e : val) (next : option loc) : M t loc :=
  self <- get ;;
  let '(l, h) := alloc (heap self) (Node e next) in
  modify (set_heap h) ;;
  ret l.

Definition set_next (p q : option loc) : M t unit :=
  self <- get ;;
  n <- lift (deref (heap self) p) ;;
  match p with
  | Some l => modify (set_heap (<[l:=Node (_element n) q]> (heap self)))
  | None => raise AttributeError
  end.

Definition first : M t val :=
  e <- is_empty ;;
  if e : bool then raise Empty
  else
    self <- get ;;
    tail <- lift (deref (heap self) (_tail self)) ;;
    head <- lift (deref (heap self) (_next tail)) ;;
    ret (_element head).

Definition dequeue : M t val :=
  e <- is_empty ;;
  if e : bool then raise Empty
  else
    self <- get ;;
    tail <- lift (deref (heap self) (_tail self)) ;;
    let oldhead := _next tail in
    (if decide (_size self = 1) then modify (set_tail None)
     else
       n <- lift (deref (heap self) oldhead) ;;
       set_next (_tail self) (_next n)) ;;
    modify (fun self => set_size (_size self - 1) self) ;;
    self <- get ;;
    n <- lift (deref (heap self) oldhead) ;;
    ret (_element n).

Definition enqueue (e : val) : M t unit :=
  newest <- new_node e None ;;
  b <- is_empty ;;
  (if b : bool then set_next (Some newest) (Some newest)
   else
     self <- get ;;
     tail <- lift (deref (heap self) (_tail self)) ;;
     set_next (Some newest) (_next tail) ;;
     self <- get ;;
     set_next (_tail self) (Some newest)) ;;
  modify (set_tail (Some newest)) ;;
  modify (fun self => set_size (_size self + 1) self).

Definition rotate : M t unit :=
  self <- get ;;
  if decide (_size self > 0)
  then tail <- lift (deref (heap self) (_tail self)) ;; modify (set_tail (_next tail))
  else ret tt.

End CircularQueue.
Arguments t : clear implicits.
End CircularQueue.

(** ** Clients and logical views *)

(** [for x in xs: f(x)] *)
Fixpoint call_each {S B} (f : B -> M S unit) (xs : list B) : M S unit :=
  match xs with
  | [] => ret tt
  | x :: xs' => f x ;; call_each f xs'
  end.

(** [[m() for _ in range(n)]] *)
Fixpoint collect {S B} (n : nat) (m : M S B) : M S (list B) :=
  match n with
  | O => ret []
  | S n' => x <- m ;; xs <- collect n' m ;; ret (x :: xs)
  end.

(** One step of a rotation on the logical contents. *)
Definition rot_right {B} (l : list B) : list B :=
  match last l with
  | Some x => x :: removelast l
  | None => []
  end.

Definition rot_left {B} (l : list B) : list B :=
  match l with
  | [] => []
  | x :: l' => l' ++ [x]
  end.

(** An [ArrayQueue] has the fields of an [ArrayDeque] without [_maxlen]. *)
Definition as_deque {A} (q : ArrayQueue.t A) : ArrayDeque.t A :=
  {| ArrayDeque._data := ArrayQueue._data q;
     ArrayDeque._size := ArrayQueue._size q;
     ArrayDeque._front := ArrayQueue._front q;
     ArrayDeque._maxlen := None |}.

(** [m2] on the image of [s] does what [m1] does on [s]. *)
Definition sim_at {S1 S2 B} (f : S1 -> S2) (s : S1) (m1 : M S1 B) (m2 : M S2 B) : Prop :=
  m2 (f s) = (fst (m1 s), f (snd (m1 s))).

(** A method that leaves the observation [f] of the state as it was, whether
    it returns or raises. *)
Definition stable {S B T} (f : S -> T) (m : M S B) : Prop :=
  forall s, f (snd (m s)) = f s.

(** The chain of nodes from [p] up to, and without, [q], and the elements it
    holds. *)
Fixpoint lseg {A} (h : store A) (p : option loc) (xs : list (option A))
    (q : option loc) : Prop :=
  match xs with
  | [] => p = q
  | x :: xs' =>
      exists l nx, p = Some l /\ h !! l = Some (Node x nx) /\ lseg h nx xs' q
  end.

(** A [LinkedQueue] that holds [xs], front first: the chain from [_head] ends
    in the node [_tail], whose [_next] is [None]. *)
Definition linked_repr {A} (q : LinkedQueue.t A) (xs : list (option A)) : Prop :=
  LinkedQueue._size q = Z.of_nat (length xs) /\
  match xs with
  | [] => LinkedQueue._head q = None
  | _ =>
      exists t, LinkedQueue._tail q = Some t /\
        lseg (LinkedQueue.heap q) (LinkedQueue._head q) (removelast xs) (Some t) /\
        LinkedQueue.heap q !! t = Some (Node (default None (last xs)) None)
  end.

(** The deque obtained from [ArrayDeque(maxlen)] by [add_last] of the
    integers of [l], in order. *)
Definition deque_of (maxlen : option Z) (l : list Z) : ArrayDeque.t Z :=
  ArrayDeque.run (map (fun x => ArrayDeque.AddLast (Some x)) l)
    (ArrayDeque.__init__ maxlen).

(** ** Observing a sequence of calls *)

(** What a call returns: an element or [None], an [int], or a [bool]. *)
Inductive answer (A : Type) : Type :=
  | AVal (v : option A)
  | AInt (n : Z)
  | ABool (b : bool).
Arguments AVal {A} v.
Arguments AInt {A} n.
Arguments ABool {A} b.

(** The outcomes of the calls [ops], made one after the other on [s], the
    exceptions being caught. *)
Fixpoint trace {S O B} (call : O -> M S B) (ops : list O) (s : S) : list (outcome B) :=
  match ops with
  | [] => []
  | o :: ops' => fst (call o s) :: trace call ops' (snd (call o s))
  end.

(** The state that the calls [ops] leave. *)
Fixpoint final {S O B} (call : O -> M S B) (ops : list O) (s : S) : S :=
  match ops with
  | [] => s
  | o :: ops' => final call ops' (snd (call o s))
  end.

(** The methods that the three queues share, and [rotate], which the
    [CircularQueue] adds. *)
Inductive qop (A : Type) : Type :=
  | Enqueue (e : option A)
  | Dequeue
  | First
  | Len
  | IsEmpty.
Arguments Enqueue {A} e.
Arguments Dequeue {A}.
Arguments First {A}.
Arguments Len {A}.
Arguments IsEmpty {A}.

Inductive cop (A : Type) : Type :=
  | Shared (o : qop A)
  | Rotate.
Arguments Shared {A} o.
Arguments Rotate {A}.

Definition queue_call {S A} (enqueue : option A -> M S unit)
    (dequeue first : M S (option A)) (length : M S Z) (is_empty : M S bool)
    (o : qop A) : M S (answer A) :=
  match o with
  | Enqueue e => enqueue e ;; ret (AVal None)
  | Dequeue => x <- dequeue ;; ret (AVal x)
  | First => x <- first ;; ret (AVal x)
  | Len => n <- length ;; ret (AInt n)
  | IsEmpty => b <- is_empty ;; ret (ABool b)
  end.

Definition array_queue_call {A} : qop A -> M (ArrayQueue.t A) (answer A) :=
  queue_call ArrayQueue.enqueue ArrayQueue.dequeue ArrayQueue.first
    ArrayQueue.__len__ ArrayQueue.is_empty.

Definition linked_queue_call {A} : qop A -> M (LinkedQueue.t A) (answer A) :=
  queue_call LinkedQueue.enqueue LinkedQueue.dequeue LinkedQueue.first
    LinkedQueue.__len__ LinkedQueue.is_empty.

Definition circular_queue_call {A} (o : cop A) : M (CircularQueue.t A) (answer A) :=
  match o with
  | Shared o =>
      queue_call CircularQueue.enqueue CircularQueue.dequeue CircularQueue.first
        CircularQueue.__len__ CircularQueue.is_empty o
  | Rotate => CircularQueue.rotate ;; ret (AVal None)
  end.

(** The queue that the three classes implement: a list, front first. *)
Module ListQueue.
Section ListQueue.
Context {A : Type}.

Definition call (o : qop A) : M (list (option A)) (answer A) :=
  match o with
  | Enqueue e => modify (fun xs => xs ++ [e]) ;; ret (AVal None)
  | Dequeue =>
      xs <- get ;;
      match xs with
      | [] => raise Empty
      | x :: xs' => put xs' ;; ret (AVal x)
      end
  | First =>
      xs <- get ;;
      match xs with
      | [] => raise Empty
      | x :: _ => ret (AVal x)
      end
  | Len => xs <- get ;; ret (AInt (len xs))
  | IsEmpty => xs <- get ;; ret (ABool (bool_decide (len xs = 0)))
  end.

Definition call_circular (o : cop A) : M (list (option A)) (answer A) :=
  match o with
  | Shared o => call o
  | Rotate => modify rot_left ;; ret (AVal None)
  end.

End ListQueue.
End ListQueue.

(** The nodes [ls], in this order, hold [xs] and link [p] to [q]. *)
Fixpoint chain {A} (h : store A) (ls : list loc) (xs : list (option A))
    (p q : option loc) : Prop :=
  match ls, xs with
  | [], [] => p = q
  | l :: ls', x :: xs' =>
      p = Some l /\ exists nx, h !! l = Some (Node x nx) /\ chain h ls' xs' nx q
  | _, _ => False
  end.

(** A [CircularQueue] that holds [xs], front first: distinct nodes that form
    a ring, [_tail] being the last of them and its [_next] the first. *)
Definition circular_repr {A} (q : CircularQueue.t A) (xs : list (option A)) : Prop :=
  CircularQueue._size q = Z.of_nat (length xs) /\
  (xs <> [] ->
   exists ls hd, NoDup ls /\ head ls = Some hd /\ CircularQueue._tail q = last ls /\
     chain (CircularQueue.heap q) ls xs (Some hd) (Some hd)).

(** The number of occurrences of [value] in a list. *)
Definition occurrences {A} `{EqDecision A} (value : option A) (l : list (option A)) : Z :=
  len (filter (fun x => x = value) l).

(** The index that Python gives to [i] in a sequence of length [n]. *)
Definition normal_index (n i : Z) : nat :=
  Z.to_nat (if decide (i < 0) then n + i else i).

(** One call of a method of the [ArrayDeque], with what it returns. *)
Definition deque_call {A} `{EqDecision A} (o : ArrayDeque.op A)
    : M (ArrayDeque.t A) (answer A) :=
  match o with
  | ArrayDeque.AddFirst e => ArrayDeque.add_first e ;; ret (AVal None)
  | ArrayDeque.AddLast e => ArrayDeque.add_last e ;; ret (AVal None)
  | ArrayDeque.DeleteFirst => x <- ArrayDeque.delete_first ;; ret (AVal x)
  | ArrayDeque.DeleteLast => x <- ArrayDeque.delete_last ;; ret (AVal x)
  | ArrayDeque.Remove value => ArrayDeque.remove value ;; ret (AVal None)
  | ArrayDeque.Rotate n => ArrayDeque.rotate n ;; ret (AVal None)
  | ArrayDeque.Clear => ArrayDeque.clear ;; ret (AVal None)
  | ArrayDeque.SetItem i v => ArrayDeque.__setitem__ i v ;; ret (AVal None)
  | ArrayDeque.GetItem i => x <- ArrayDeque.__getitem__ i ;; ret (AVal x)
  | ArrayDeque.First => x <- ArrayDeque.first ;; ret (AVal x)
  | ArrayDeque.Last => x <- ArrayDeque.last ;; ret (AVal x)
  | ArrayDeque.Count value => n <- ArrayDeque.count value ;; ret (AInt n)
  | ArrayDeque.Len => n <- ArrayDeque.__len__ ;; ret (AInt n)
  | ArrayDeque.IsEmpty => b <- ArrayDeque.is_empty ;; ret (ABool b)
  | ArrayDeque.IsFull => b <- ArrayDeque.is_full ;; ret (ABool b)
  end.

(** The double-ended queue as a list, front first, indexed as a Python list
    is.  [remove] and [is_full] have no counterpart here: the first is the
    method whose bookkeeping is wrong, the second observes the capacity of the
    storage. *)
Module ListDeque.
Section ListDeque.
Context {A : Type} `{EqDecision A}.

Definition covers (o : ArrayDeque.op A) : bool :=
  match o with
  | ArrayDeque.Remove _ | ArrayDeque.IsFull => false
  | _ => true
  end.

Definition at_index (i : pyindex) (xs : list (option A)) : outcome nat :=
  match i with
  | IdxSlice => Raise NotImplementedError
  | IdxInt i =>
      if decide (- len xs <= i <= len xs - 1) then Ok (normal_index (len xs) i)
      else Raise IndexError
  | IdxOther => Raise TypeError
  end.

Definition call (o : ArrayDeque.op A) : M (list (option A)) (answer A) :=
  match o with
  | ArrayDeque.AddFirst e => modify (cons e) ;; ret (AVal None)
  | ArrayDeque.AddLast e => modify (fun xs => xs ++ [e]) ;; ret (AVal None)
  | ArrayDeque.DeleteFirst =>
      xs <- get ;;
      match xs with
      | [] => raise Empty
      | x :: xs' => put xs' ;; ret (AVal x)
      end
  | ArrayDeque.DeleteLast =>
      xs <- get ;;
      match last xs with
      | None => raise Empty
      | Some x => put (removelast xs) ;; ret (AVal x)
      end
  | ArrayDeque.Rotate n =>
      xs <- get ;;
      match xs with
      | [] => if decide (n = 0) then ret (AVal None) else raise Empty
      | _ =>
          put (if decide (0 <= n) then Nat.iter (Z.to_nat n) rot_right xs
               else Nat.iter (Z.to_nat (- n)) rot_left xs) ;;
          ret (AVal None)
      end
  | ArrayDeque.Clear => put [] ;; ret (AVal None)
  | ArrayDeque.SetItem i v =>
      xs <- get ;;
      k <- lift (at_index i xs) ;;
      put (<[k:=v]> xs) ;;
      ret (AVal None)
  | ArrayDeque.GetItem i =>
      xs <- get ;;
      k <- lift (at_index i xs) ;;
      ret (AVal (default None (xs !! k)))
  | ArrayDeque.First =>
      xs <- get ;;
      match xs with
      | [] => raise Empty
      | x :: _ => ret (AVal x)
      end
  | ArrayDeque.Last =>
      xs <- get ;;
      match last xs with
      | None => raise Empty
      | Some x => ret (AVal x)
      end
  | ArrayDeque.Count value => xs <- get ;; ret (AInt (occurrences value xs))
  | ArrayDeque.Len => xs <- get ;; ret (AInt (len xs))
  | ArrayDeque.IsEmpty => xs <- get ;; ret (ABool (bool_decide (len xs = 0)))
  | ArrayDeque.Remove _ | ArrayDeque.IsFull => ret (AVal None)
  end.

End ListDeque.
End ListDeque.

(** An [ArrayDeque] that satisfies the invariant of the circular buffer and
    holds [xs], front first. *)
Definition deque_holds {A} (d : ArrayDeque.t A) (xs : list (option A)) : Prop :=
  ArrayDeque.wf d /\ ArrayDeque.maxlen_valid (ArrayDeque._maxlen d) /\
  ArrayDeque.elements d = xs.

(** * Verification *)

(** ** Python primitives *)

Lemma py_mod_ok (a b : Z) : b ≠ 0 -> py_mod a b = Ok (a mod b).
Proof. intros Hb. unfold py_mod. by case_decide. Qed.

Lemma py_mod_zero (a : Z) : py_mod a 0 = Raise ZeroDivisionError.
Proof. reflexivity. Qed.

Lemma py_index_ok {T} (l : list T) (i : Z) :
  0 <= i < len l -> py_index l i = Some (Z.to_nat i).
Proof. intros Hi. unfold py_index. by case_decide. Qed.

Lemma py_index_high {T} (l : list T) (i : Z) : len l <= i -> py_index l i = None.
Proof.
  intros Hi. unfold py_index, len in *. repeat case_decide; try done; lia.
Qed.

Lemma py_getitem_ok {T} (l : list (option T)) (i : Z) :
  0 <= i < len l -> py_getitem l i = Ok (default None (l !! Z.to_nat i)).
Proof.
  intros Hi. unfold py_getitem. rewrite py_index_ok by done.
  destruct (l !! Z.to_nat i) eqn:E; [done|].
  apply lookup_ge_None in E. unfold len in Hi. lia.
Qed.

Lemma py_setitem_ok {T} (l : list T) (i : Z) (x : T) :
  0 <= i < len l -> py_setitem l i x = Ok (<[Z.to_nat i:=x]> l).
Proof. intros Hi. unfold py_setitem. by rewrite py_index_ok. Qed.

Lemma len_insert {T} (l : list T) (k : nat) (x : T) : len (<[k:=x]> l) = len l.
Proof. unfold len. by rewrite length_insert. Qed.

Lemma len_py_nones {T} (n : Z) : 0 <= n -> len (@py_nones T n) = n.
Proof. intros Hn. unfold len, py_nones. rewrite length_replicate. lia. Qed.

Lemma py_setitem_len {T} (l l' : list T) (i : Z) (x : T) :
  py_setitem l i x = Ok l' -> len l' = len l.
Proof.
  unfold py_setitem. destruct (py_index l i); [|done]. intros [= <-]. apply len_insert.
Qed.

Lemma py_mod_nonzero (a b c : Z) : py_mod a b = Ok c -> b <> 0.
Proof. unfold py_mod. by case_decide. Qed.

Lemma len_nonneg {T} (l : list T) : 0 <= len l.
Proof. unfold len. lia. Qed.

Lemma half_le (n : Z) : 0 <= n -> n `div` 2 <= n.
Proof. intros Hn. apply Z.div_le_upper_bound; lia. Qed.

(** Reducing a remainder to a case distinction, for [lia]. *)
Lemma mod_wrap (a n : Z) :
  0 <= a < 2 * n -> a mod n = if decide (a < n) then a else a - n.
Proof.
  intros Ha. case_decide.
  - apply Z.mod_small. lia.
  - replace a with ((a - n) + 1 * n) at 1 by lia.
    rewrite Z.mod_add by lia. apply Z.mod_small. lia.
Qed.

Lemma mod_range (a n : Z) : 0 < n -> 0 <= a mod n < n.
Proof. intros. apply Z.mod_pos_bound. lia. Qed.

(** ** Stepping through a method *)

Lemma bind_get {S B} (k : S -> M S B) (s : S) : bind get k s = k s s.
Proof. reflexivity. Qed.

Lemma bind_modify {S B} (f : S -> S) (k : unit -> M S B) (s : S) :
  bind (modify f) k s = k tt (f s).
Proof. reflexivity. Qed.

Lemma bind_ret {S B C} (a : B) (k : B -> M S C) (s : S) : bind (ret a) k s = k a s.
Proof. reflexivity. Qed.

Lemma bind_raise {S B C} (e : exn) (k : B -> M S C) (s : S) :
  bind (raise e) k s = (Raise e, s).
Proof. reflexivity. Qed.

Lemma bind_lift_ok {S B C} (a : B) (k : B -> M S C) (s : S) :
  bind (lift (Ok a)) k s = k a s.
Proof. reflexivity. Qed.

Lemma bind_lift_raise {S B C} (e : exn) (k : B -> M S C) (s : S) :
  bind (lift (Raise e)) k s = (Raise e, s).
Proof. reflexivity. Qed.

Lemma bind_assoc {S B C D} (m : M S B) (k : B -> M S C) (k' : C -> M S D) (s : S) :
  bind (bind m k) k' s = bind m (fun x => bind (k x) k') s.
Proof. unfold bind. destruct (m s) as [[a|e] s']; reflexivity. Qed.

Ltac mstep :=
  repeat (first [ rewrite bind_assoc | rewrite bind_get | rewrite bind_modify | rewrite bind_ret
                | rewrite bind_raise | rewrite bind_lift_ok | rewrite bind_lift_raise ];
          cbn beta iota delta
            [ArrayDeque._data ArrayDeque._size ArrayDeque._front ArrayDeque._maxlen
             ArrayDeque.set_data ArrayDeque.set_size ArrayDeque.set_front
             ArrayQueue._data ArrayQueue._size ArrayQueue._front
             ArrayQueue.set_data ArrayQueue.set_size ArrayQueue.set_front
             LinkedQueue.heap LinkedQueue._head LinkedQueue._tail LinkedQueue._size
             LinkedQueue.set_heap LinkedQueue.set_head LinkedQueue.set_tail
             LinkedQueue.set_size
             CircularQueue.heap CircularQueue._tail CircularQueue._size
             CircularQueue.set_heap CircularQueue.set_tail CircularQueue.set_size
             _element _next]).

(** ** Rotations of a list *)

Lemma rot_right_snoc {B} (l : list B) (x : B) : rot_right (l ++ [x]) = x :: l.
Proof. unfold rot_right. by rewrite last_snoc, removelast_last. Qed.

Lemma rot_left_right {B} (l : list B) : rot_left (rot_right l) = l.
Proof.
  destruct l as [|y l'] using rev_ind; [done|]. by rewrite rot_right_snoc.
Qed.

Lemma rot_right_left {B} (l : list B) : rot_right (rot_left l) = l.
Proof. destruct l as [|x l]; [done|]. cbn. apply rot_right_snoc. Qed.

Lemma iter_cancel {B} (f g : B -> B) (n : nat) (x : B) :
  (forall y, g (f y) = y) -> Nat.iter n g (Nat.iter n f x) = x.
Proof.
  intros Hgf. induction n as [|n IH]; [done|].
  rewrite Nat.iter_succ_r. cbn. by rewrite Hgf.
Qed.

Lemma length_range (n : Z) : length (range n) = Z.to_nat n.
Proof.
  unfold range, range_up. rewrite length_map, length_seq. f_equal. lia.
Qed.

Lemma elem_of_range (n x : Z) : x ∈ range n -> 0 <= x < n.
Proof.
  unfold range, range_up. rewrite list_elem_of_In, in_map_iff.
  intros (k & <- & Hk). apply in_seq in Hk. lia.
Qed.

(** ** Observations that a method leaves alone *)

Lemma stable_ret {S B T} (f : S -> T) (a : B) : stable f (ret a).
Proof. done. Qed.

Lemma stable_raise {S B T} (f : S -> T) (e : exn) : stable f (@raise S B e).
Proof. done. Qed.

Lemma stable_lift {S B T} (f : S -> T) (r : outcome B) : stable f (lift r).
Proof. done. Qed.

Lemma stable_get {S T} (f : S -> T) : stable f get.
Proof. done. Qed.

Lemma stable_modify {S T} (f : S -> T) (g : S -> S) :
  (forall s, f (g s) = f s) -> stable f (modify g).
Proof. intros H s. apply H. Qed.

Lemma stable_bind {S B C T} (f : S -> T) (m : M S B) (k : B -> M S C) :
  stable f m -> (forall a, stable f (k a)) -> stable f (bind m k).
Proof.
  intros Hm Hk s. unfold bind. specialize (Hm s).
  destruct (m s) as [[a|e] s']; cbn in *; [|done].
  by rewrite Hk.
Qed.

Lemma stable_for_each {S T} (f : S -> T) (xs : list Z) (body : Z -> M S unit) :
  (forall x, stable f (body x)) -> stable f (for_each xs body).
Proof.
  intros Hb. induction xs as [|x xs IH]; [done|].
  cbn. apply stable_bind; [done|]. intros _. done.
Qed.

Lemma stable_for_fold {S B T} (f : S -> T) (xs : list Z) (acc : B)
    (body : Z -> B -> M S B) :
  (forall x a, stable f (body x a)) -> stable f (for_fold xs acc body).
Proof.
  intros Hb. revert acc. induction xs as [|x xs IH]; intros acc; [done|].
  cbn. apply stable_bind; [done|]. intros a. apply IH.
Qed.

Lemma stable_for_break {S T} (f : S -> T) (xs : list Z) (test : Z -> M S bool) :
  (forall x, stable f (test x)) -> stable f (for_break xs test).
Proof.
  intros Hb. induction xs as [|x xs IH]; [done|].
  cbn. apply stable_bind; [done|]. intros [|]; [done|apply IH].
Qed.

Lemma stable_id {S B} (m : M S B) : stable id m -> forall s, snd (m s) = s.
Proof. intros H s. apply (H s). Qed.

Ltac solve_stable :=
  repeat first
    [ apply stable_ret | apply stable_raise | apply stable_lift | apply stable_get
    | apply stable_modify; intros; reflexivity
    | apply stable_for_each; intros | apply stable_for_fold; intros
    | apply stable_for_break; intros
    | apply stable_bind; [|intros]
    | case_decide
    | match goal with
      | |- stable _ (if ?b then _ else _) => destruct b
      | |- stable _ (match ?x with _ => _ end) => destruct x
      end ].

(** Case distinction on the outcome of the next primitive. *)
Ltac mcase :=
  match goal with
  | |- context [bind (lift ?r) _ _] =>
      let E := fresh "E" in destruct r eqn:E; mstep
  end.

Lemma for_each_preserves {S} (P : S -> Prop) (xs : list Z) (body : Z -> M S unit) :
  (forall x s, P s -> P (snd (body x s))) ->
  forall s, P s -> P (snd (for_each xs body s)).
Proof.
  intros Hb. induction xs as [|x xs IH]; intros s Hs; [done|].
  cbn [for_each]. unfold bind. specialize (Hb x s Hs).
  destruct (body x s) as [[[]|e] s1]; cbn in *; [by apply IH|done].
Qed.

Lemma snd_then_ret {S B} (m : M S B) (s : S) : snd ((m ;; ret tt) s) = snd (m s).
Proof. unfold bind. by destruct (m s) as [[a|e] s']. Qed.

Section ArrayDequeFacts.
Context {A : Type}.
Import ArrayDeque.
Implicit Types (d : ArrayDeque.t A) (e v : option A).

Lemma length_elements d : length (elements d) = Z.to_nat (_size d).
Proof. unfold elements. by rewrite length_fmap, length_seq. Qed.

Lemma lookup_elements d (k : nat) :
  (k < Z.to_nat (_size d))%nat -> elements d !! k = Some (slot d (Z.of_nat k)).
Proof.
  intros Hk. unfold elements. rewrite list_lookup_fmap, lookup_seq_lt by done. done.
Qed.

(** The copying loop of [_resize], started after [j] iterations. *)
Lemma resize_loop d (c : nat) (sz : Z) (mx : option Z) (m j : nat) :
  0 < capacity d ->
  (j + m <= Z.to_nat (_size d))%nat -> (Z.to_nat (_size d) <= c)%nat ->
  for_fold (map (fun k => 0 + Z.of_nat k) (seq j m))
    ((_front d + Z.of_nat j) mod capacity d)
    (fun k walk =>
       x <- lift (py_getitem (_data d) walk) ;;
       self <- get ;;
       d' <- lift (py_setitem (_data self) k x) ;;
       modify (set_data d') ;;
       lift (py_mod (1 + walk) (len (_data d))))
    {| _data := take j (elements d) ++ replicate (c - j) None;
       _size := sz; _front := _front d; _maxlen := mx |}
  = (Ok ((_front d + Z.of_nat (j + m)) mod capacity d),
     {| _data := take (j + m) (elements d) ++ replicate (c - (j + m)) None;
        _size := sz; _front := _front d; _maxlen := mx |}).
Proof.
  intros Hc. revert j. induction m as [|m IH]; intros j Hj Hsz.
  - cbn. unfold ret. by rewrite Nat.add_0_r.
  - assert (Hlen : length (take j (elements d)) = j).
    { rewrite length_take, length_elements. lia. }
    cbn [seq map for_fold]. mstep.
    rewrite py_getitem_ok by (apply mod_range; done). mstep.
    rewrite py_setitem_ok; last first.
    { unfold len. rewrite length_app, length_replicate, Hlen. lia. }
    mstep. rewrite py_mod_ok by (unfold capacity in Hc; lia).
    replace ((1 + (_front d + Z.of_nat j) mod capacity d) mod len (_data d))
      with ((_front d + Z.of_nat (S j)) mod capacity d); last first.
    { unfold capacity in *. rewrite Z.add_mod_idemp_r by lia. f_equal. lia. }
    replace (<[Z.to_nat (0 + Z.of_nat j):=default None
                 (_data d !! Z.to_nat ((_front d + Z.of_nat j) mod capacity d))]>
               (take j (elements d) ++ replicate (c - j) None))
      with (take (S j) (elements d) ++ replicate (c - S j) (@None A)); last first.
    { replace (Z.to_nat (0 + Z.of_nat j)) with (length (take j (elements d)) + 0)%nat
        by (rewrite Hlen; lia).
      rewrite insert_app_r.
      erewrite take_S_r by (apply lookup_elements; lia).
      rewrite <- app_assoc. f_equal.
      destruct (c - j)%nat as [|n] eqn:E; [lia|].
      replace (c - S j)%nat with n by lia. done. }
    mstep. rewrite IH by lia. do 2 f_equal; [do 2 f_equal; lia|].
    f_equal; f_equal; lia.
Qed.

Lemma resize_ok d (cap : Z) :
  wf d -> _size d <= cap ->
  _resize cap d =
    (Ok tt, {| _data := elements d ++ replicate (Z.to_nat (cap - _size d)) None;
               _size := _size d; _front := 0; _maxlen := _maxlen d |}).
Proof.
  intros [Hc Hf Hs] Hcap. unfold _resize. mstep.
  unfold range, range_up.
  pose proof (resize_loop d (Z.to_nat cap) (_size d) (_maxlen d)
                (Z.to_nat (_size d)) 0 Hc) as H.
  change (take 0 (elements d)) with (@nil (option A)) in H.
  cbn [Nat.add app] in H. rewrite Nat.sub_0_r, Z.add_0_r in H.
  rewrite (Z.mod_small (_front d)) in H by done.
  rewrite Z.sub_0_r. unfold py_nones, bind at 1.
  change (set_data (replicate (Z.to_nat cap) None) d)
    with {| _data := replicate (Z.to_nat cap) (@None A); _size := _size d;
            _front := _front d; _maxlen := _maxlen d |}.
  rewrite H by lia. unfold modify.
  rewrite firstn_all2 by (rewrite length_elements; lia).
  unfold set_front; cbn. repeat f_equal. lia.
Qed.

(** *** Reading the logical view of an explicit state *)

Lemma elements_intro d (l : list (option A)) :
  length l = Z.to_nat (_size d) ->
  (forall k : nat, (k < length l)%nat -> l !! k = Some (slot d (Z.of_nat k))) ->
  elements d = l.
Proof.
  intros Hlen Hl. apply list_eq. intros k.
  destruct (decide (k < length l)%nat) as [Hk|Hk].
  - rewrite Hl by done. apply lookup_elements. lia.
  - rewrite !lookup_ge_None_2; [done|lia|rewrite length_elements; lia].
Qed.

(** [slot] looks only at the storage and the front index. *)
Lemma slot_insert (data : list (option A)) (sz sz' f : Z) (mx mx' : option Z)
    (p : Z) (x : option A) (i : Z) :
  0 <= p < len data ->
  slot {| _data := <[Z.to_nat p:=x]> data; _size := sz; _front := f; _maxlen := mx |} i
  = if decide ((f + i) mod len data = p) then x
    else slot {| _data := data; _size := sz'; _front := f; _maxlen := mx' |} i.
Proof.
  intros Hp. unfold slot, capacity. cbn. rewrite len_insert.
  assert (0 <= (f + i) mod len data < len data) by (apply mod_range; lia).
  case_decide as E.
  - rewrite E, list_lookup_insert_eq; [done|]. unfold len in Hp. lia.
  - rewrite list_lookup_insert_ne; [done|]. lia.
Qed.

Lemma slot_move_front (data : list (option A)) (sz sz' f f' : Z)
    (mx mx' : option Z) (i k : Z) :
  0 < len data -> f' = (f + k) mod len data ->
  slot {| _data := data; _size := sz; _front := f'; _maxlen := mx |} i
  = slot {| _data := data; _size := sz'; _front := f; _maxlen := mx' |} (k + i).
Proof.
  intros Hc ->. unfold slot, capacity. cbn.
  rewrite Z.add_mod_idemp_l by lia. do 4 f_equal. lia.
Qed.

Lemma mod_wrap3 (a n : Z) :
  - n <= a < 2 * n ->
  a mod n = if decide (a < 0) then a + n else if decide (a < n) then a else a - n.
Proof.
  intros Ha. case_decide.
  - replace a with ((a + n) + (-1) * n) at 1 by lia.
    rewrite Z.mod_add by lia. apply Z.mod_small. lia.
  - apply mod_wrap. lia.
Qed.

Ltac solve_mod :=
  rewrite ?mod_wrap3 by lia; repeat case_decide; lia.

(** *** [_resize] *)

Lemma len_resized d (cap : Z) :
  0 <= _size d <= cap ->
  len (elements d ++ replicate (Z.to_nat (cap - _size d)) None) = cap.
Proof.
  intros H. unfold len. rewrite length_app, length_elements, length_replicate. lia.
Qed.

Lemma capacity_resized d (cap sz f : Z) (mx : option Z) :
  0 <= _size d <= cap ->
  capacity {| _data := elements d ++ replicate (Z.to_nat (cap - _size d)) None;
              _size := sz; _front := f; _maxlen := mx |} = cap.
Proof. apply len_resized. Qed.

Lemma resized_wf d (cap : Z) :
  wf d -> _size d <= cap -> 0 < cap ->
  wf {| _data := elements d ++ replicate (Z.to_nat (cap - _size d)) None;
        _size := _size d; _front := 0; _maxlen := _maxlen d |}.
Proof.
  intros [Hc Hf Hs] Hcap Hpos.
  assert (len (elements d ++ replicate (Z.to_nat (cap - _size d)) None) = cap) as E.
  { unfold len. rewrite length_app, length_elements, length_replicate. lia. }
  split; unfold capacity; cbn; rewrite E; lia.
Qed.

Lemma resized_elements d (cap : Z) :
  wf d -> _size d <= cap -> 0 < cap ->
  elements {| _data := elements d ++ replicate (Z.to_nat (cap - _size d)) None;
              _size := _size d; _front := 0; _maxlen := _maxlen d |}
  = elements d.
Proof.
  intros [Hc Hf Hs] Hcap Hpos. symmetry. apply elements_intro.
  - by rewrite length_elements.
  - intros k Hk. rewrite length_elements in Hk. cbn in Hk.
    rewrite lookup_elements by done. f_equal.
    unfold slot at 1. unfold capacity. cbn.
    assert (len (elements d ++ replicate (Z.to_nat (cap - _size d)) None) = cap) as ->.
    { unfold len. rewrite length_app, length_elements, length_replicate. lia. }
    rewrite Z.add_0_l, Z.mod_small by lia. rewrite Nat2Z.id.
    rewrite lookup_app_l by (rewrite length_elements; lia).
    by rewrite lookup_elements.
Qed.

(** *** [add_last] *)

Lemma add_last_no_resize d e :
  wf d -> _size d < capacity d ->
  add_last e d =
    (Ok tt, {| _data := <[Z.to_nat ((_front d + _size d) mod capacity d):=e]> (_data d);
               _size := _size d + 1; _front := _front d; _maxlen := _maxlen d |}).
Proof.
  intros [Hc Hf Hs] Hlt. unfold capacity in *.
  unfold add_last. mstep. case_decide; [lia|]. mstep.
  rewrite py_mod_ok by lia. mstep.
  rewrite py_setitem_ok by (apply mod_range; lia). mstep. done.
Qed.

Lemma add_last_resize d e :
  wf d -> _size d = capacity d ->
  add_last e d =
    add_last e {| _data := elements d ++ replicate (Z.to_nat (2 * capacity d - _size d)) None;
                  _size := _size d; _front := 0; _maxlen := _maxlen d |}.
Proof.
  intros Hwf Hfull. pose proof Hwf as [Hc Hf Hs]. unfold capacity in *.
  unfold add_last at 1. mstep. case_decide; [|lia].
  unfold bind at 1. rewrite resize_ok by (done || lia).
  unfold add_last. mstep. case_decide as E; [|done].
  exfalso. revert E. rewrite len_resized; lia.
Qed.

Lemma pushed_back_elements (data : list (option A)) (sz f : Z) (mx : option Z) e :
  let d := {| _data := data; _size := sz; _front := f; _maxlen := mx |} in
  wf d -> sz < len data ->
  elements {| _data := <[Z.to_nat ((f + sz) mod len data):=e]> data;
              _size := sz + 1; _front := f; _maxlen := mx |}
  = elements d ++ [e].
Proof.
  intros d [Hc Hf Hs] Hlt. unfold capacity in *. cbn in *.
  assert (0 <= (f + sz) mod len data < len data) by (apply mod_range; lia).
  apply elements_intro.
  - rewrite length_app, length_elements. cbn. lia.
  - intros k Hk. rewrite length_app, length_elements in Hk. cbn in Hk.
    rewrite (slot_insert _ _ sz _ _ mx) by done. fold d.
    destruct (decide (k < Z.to_nat sz)%nat).
    + rewrite lookup_app_l by (rewrite length_elements; done).
      rewrite lookup_elements by done. case_decide as E; [|done].
      exfalso. revert E. solve_mod.
    + assert (k = Z.to_nat sz) as -> by lia.
      rewrite list_lookup_middle by (by rewrite length_elements).
      rewrite Z2Nat.id by lia. by case_decide.
Qed.

Lemma add_last_spec d e :
  wf d ->
  exists d', add_last e d = (Ok tt, d') /\ wf d' /\
    elements d' = elements d ++ [e] /\
    _size d' = _size d + 1 /\ _maxlen d' = _maxlen d /\
    capacity d' = (if decide (_size d = capacity d) then 2 * capacity d else capacity d).
Proof.
  intros Hwf. pose proof Hwf as [Hc Hf Hs].
  assert (forall d0, wf d0 -> _size d0 < capacity d0 ->
    exists d', add_last e d0 = (Ok tt, d') /\ wf d' /\
      elements d' = elements d0 ++ [e] /\
      _size d' = _size d0 + 1 /\ _maxlen d' = _maxlen d0 /\
      capacity d' = capacity d0) as Hsmall.
  { intros d0 Hwf0 Hlt. eexists. split; [by apply add_last_no_resize|].
    destruct d0 as [data sz f mx]. destruct Hwf0 as [Hc0 Hf0 Hs0].
    unfold capacity in *. cbn in *.
    split; [split; unfold capacity; cbn; rewrite ?len_insert; lia|].
    split; [by apply pushed_back_elements|].
    by rewrite len_insert. }
  case_decide as Hfull.
  - rewrite add_last_resize by done.
    destruct (Hsmall _ (resized_wf d (2 * capacity d) Hwf ltac:(lia) ltac:(lia)))
      as (d' & -> & ? & Hel & ? & ? & Hcap).
    { rewrite capacity_resized by lia. cbn. lia. }
    exists d'. rewrite resized_elements in Hel by (done || lia).
    rewrite capacity_resized in Hcap by lia. cbn in *. done.
  - apply Hsmall; [done|lia].
Qed.

(** *** [add_first] *)

Lemma add_first_no_resize d e :
  wf d -> _size d < capacity d ->
  add_first e d =
    (Ok tt, {| _data := <[Z.to_nat ((_front d - 1) mod capacity d):=e]> (_data d);
               _size := _size d + 1; _front := (_front d - 1) mod capacity d;
               _maxlen := _maxlen d |}).
Proof.
  intros [Hc Hf Hs] Hlt. unfold capacity in *.
  unfold add_first. mstep. case_decide; [lia|]. mstep.
  rewrite py_mod_ok by lia. mstep.
  rewrite py_setitem_ok by (apply mod_range; lia). mstep. done.
Qed.

Lemma add_first_resize d e :
  wf d -> _size d = capacity d ->
  add_first e d =
    add_first e {| _data := elements d ++ replicate (Z.to_nat (2 * capacity d - _size d)) None;
                   _size := _size d; _front := 0; _maxlen := _maxlen d |}.
Proof.
  intros Hwf Hfull. pose proof Hwf as [Hc Hf Hs]. unfold capacity in *.
  unfold add_first at 1. mstep. case_decide; [|lia].
  unfold bind at 1. rewrite resize_ok by (done || lia).
  unfold add_first. mstep. case_decide as E; [|done].
  exfalso. revert E. rewrite len_resized; lia.
Qed.

Lemma pushed_front_elements (data : list (option A)) (sz f : Z) (mx : option Z) e :
  let d := {| _data := data; _size := sz; _front := f; _maxlen := mx |} in
  wf d -> sz < len data ->
  elements {| _data := <[Z.to_nat ((f - 1) mod len data):=e]> data;
              _size := sz + 1; _front := (f - 1) mod len data; _maxlen := mx |}
  = e :: elements d.
Proof.
  intros d [Hc Hf Hs] Hlt. unfold capacity in *. cbn in *.
  assert (0 <= (f - 1) mod len data < len data) by (apply mod_range; lia).
  apply elements_intro.
  - cbn. rewrite length_elements. cbn. lia.
  - intros k Hk. cbn in Hk. rewrite length_elements in Hk. cbn in Hk.
    rewrite (slot_insert _ _ sz _ _ mx) by done.
    destruct k as [|k].
    + cbn [lookup list_lookup]. case_decide as E; [done|].
      exfalso. apply E. rewrite Z.add_0_r. apply Z.mod_mod. lia.
    + cbn [lookup list_lookup]. fold (@lookup _ _ _ _ k (elements d)).
      rewrite lookup_elements by (cbn; lia). f_equal.
      case_decide as E.
      * exfalso. revert E. rewrite Z.add_mod_idemp_l by lia. solve_mod.
      * rewrite (slot_move_front data sz sz f _ mx mx _ (-1)) by (done || f_equal; lia).
        f_equal. lia.
Qed.

Lemma add_first_spec d e :
  wf d ->
  exists d', add_first e d = (Ok tt, d') /\ wf d' /\
    elements d' = e :: elements d /\
    _size d' = _size d + 1 /\ _maxlen d' = _maxlen d /\
    capacity d' = (if decide (_size d = capacity d) then 2 * capacity d else capacity d).
Proof.
  intros Hwf. pose proof Hwf as [Hc Hf Hs].
  assert (forall d0, wf d0 -> _size d0 < capacity d0 ->
    exists d', add_first e d0 = (Ok tt, d') /\ wf d' /\
      elements d' = e :: elements d0 /\
      _size d' = _size d0 + 1 /\ _maxlen d' = _maxlen d0 /\
      capacity d' = capacity d0) as Hsmall.
  { intros d0 Hwf0 Hlt. eexists. split; [by apply add_first_no_resize|].
    destruct d0 as [data sz f mx]. pose proof Hwf0 as [Hc0 Hf0 Hs0].
    unfold capacity in *. cbn in *.
    assert (0 <= (f - 1) mod len data < len data) by (apply mod_range; lia).
    split; [split; unfold capacity; cbn; rewrite ?len_insert; lia|].
    split; [by apply pushed_front_elements|].
    by rewrite len_insert. }
  case_decide as Hfull.
  - rewrite add_first_resize by done.
    destruct (Hsmall _ (resized_wf d (2 * capacity d) Hwf ltac:(lia) ltac:(lia)))
      as (d' & -> & ? & Hel & ? & ? & Hcap).
    { rewrite capacity_resized by lia. cbn. lia. }
    exists d'. rewrite resized_elements in Hel by (done || lia).
    rewrite capacity_resized in Hcap by lia. cbn in *. done.
  - apply Hsmall; [done|lia].
Qed.

(** *** [delete_first] and [delete_last] *)

Lemma delete_first_ok d :
  wf d -> 0 < _size d ->
  delete_first d =
    (Ok (slot d 0),
     {| _data := <[Z.to_nat (_front d):=None]> (_data d); _size := _size d - 1;
        _front := (_front d + 1) mod capacity d; _maxlen := _maxlen d |}).
Proof.
  intros [Hc Hf Hs] Hpos. unfold capacity in *.
  unfold delete_first, is_empty. mstep.
  rewrite bool_decide_eq_false_2 by lia.
  mstep. rewrite py_getitem_ok by lia. mstep.
  rewrite py_setitem_ok by lia. mstep. rewrite len_insert.
  rewrite py_mod_ok by lia. mstep.
  unfold slot, capacity. rewrite Z.add_0_r, (Z.mod_small (_front d)) by lia. done.
Qed.

Lemma delete_first_spec d :
  wf d -> 0 < _size d ->
  exists d', delete_first d = (Ok (slot d 0), d') /\ wf d' /\
    elements d = slot d 0 :: elements d' /\
    _size d' = _size d - 1 /\ _maxlen d' = _maxlen d /\ capacity d' = capacity d.
Proof.
  intros Hwf Hpos. eexists. split; [by apply delete_first_ok|].
  destruct d as [data sz f mx]. pose proof Hwf as [Hc Hf Hs].
  unfold capacity in *. cbn in *.
  assert (0 <= (f + 1) mod len data < len data) by (apply mod_range; lia).
  split; [split; unfold capacity; cbn; rewrite ?len_insert; lia|].
  split; [|by rewrite len_insert].
  apply elements_intro.
  - cbn. rewrite length_elements. cbn. lia.
  - intros k Hk. cbn in Hk. rewrite length_elements in Hk. cbn in Hk.
    destruct k as [|k]; [done|].
    cbn [lookup list_lookup].
    fold (@lookup _ _ _ _ k
            (elements {| _data := <[Z.to_nat f:=None]> data; _size := sz - 1;
                         _front := (f + 1) mod len data; _maxlen := mx |})).
    rewrite lookup_elements by (cbn; lia). f_equal.
    rewrite (slot_move_front _ _ sz f _ _ mx _ 1) by (rewrite len_insert; done).
    rewrite (slot_insert _ _ sz _ _ mx) by lia.
    case_decide as E.
    + exfalso. revert E. solve_mod.
    + f_equal. lia.
Qed.

Lemma delete_last_ok d :
  wf d -> 0 < _size d ->
  delete_last d =
    (Ok (slot d (_size d - 1)),
     {| _data := <[Z.to_nat ((_front d + (_size d - 1)) mod capacity d):=None]> (_data d);
        _size := _size d - 1; _front := _front d; _maxlen := _maxlen d |}).
Proof.
  intros [Hc Hf Hs] Hpos. unfold capacity in *.
  unfold delete_last, is_empty. mstep.
  rewrite bool_decide_eq_false_2 by lia.
  mstep. rewrite py_mod_ok by lia. mstep.
  rewrite <- Z.add_sub_assoc.
  rewrite py_getitem_ok by (apply mod_range; lia). mstep.
  rewrite py_setitem_ok by (apply mod_range; lia). mstep. done.
Qed.

Lemma delete_last_spec d :
  wf d -> 0 < _size d ->
  exists d', delete_last d = (Ok (slot d (_size d - 1)), d') /\ wf d' /\
    elements d = elements d' ++ [slot d (_size d - 1)] /\
    _size d' = _size d - 1 /\ _maxlen d' = _maxlen d /\ capacity d' = capacity d.
Proof.
  intros Hwf Hpos. eexists. split; [by apply delete_last_ok|].
  destruct d as [data sz f mx]. pose proof Hwf as [Hc Hf Hs].
  unfold capacity in *. cbn in *.
  assert (0 <= (f + (sz - 1)) mod len data < len data) by (apply mod_range; lia).
  split; [split; unfold capacity; cbn; rewrite ?len_insert; lia|].
  split; [|by rewrite len_insert].
  apply elements_intro.
  - rewrite length_app, length_elements. cbn. lia.
  - intros k Hk. rewrite length_app, length_elements in Hk. cbn in Hk.
    destruct (decide (k < Z.to_nat (sz - 1))%nat).
    + rewrite lookup_app_l by (rewrite length_elements; done).
      rewrite lookup_elements by done. f_equal.
      rewrite (slot_insert _ _ sz _ _ mx) by done.
      case_decide as E; [|done]. exfalso. revert E. solve_mod.
    + assert (k = Z.to_nat (sz - 1)) as -> by lia.
      rewrite list_lookup_middle by (by rewrite length_elements).
      do 2 f_equal. lia.
Qed.

(** *** [__getitem__] *)

Lemma getitem_nonneg d (i : Z) :
  0 < capacity d -> 0 <= i < _size d ->
  __getitem__ (IdxInt i) d = (Ok (slot d i), d).
Proof.
  intros Hc Hi. unfold capacity in *. unfold __getitem__, locate. mstep.
  case_decide; [lia|]. case_decide; [lia|].
  rewrite py_mod_ok by lia. mstep.
  rewrite py_getitem_ok by (apply mod_range; lia). done.
Qed.

Lemma getitem_negative d (i : Z) :
  0 < capacity d -> - _size d <= i < 0 ->
  __getitem__ (IdxInt i) d = (Ok (slot d (_size d + i)), d).
Proof.
  intros Hc Hi. unfold capacity in *. unfold __getitem__, locate. mstep.
  case_decide; [lia|]. case_decide; [|lia].
  rewrite py_mod_ok by lia. mstep.
  rewrite py_getitem_ok by (apply mod_range; lia).
  unfold slot, capacity. by rewrite Z.add_assoc.
Qed.

Lemma getitem_out_of_range d (i : Z) :
  i < - _size d \/ _size d <= i ->
  __getitem__ (IdxInt i) d = (Raise IndexError, d).
Proof.
  intros Hi. unfold __getitem__, locate. mstep. case_decide; [done|lia].
Qed.

(** Index access on any state whose storage is not empty when it holds
    elements. *)
Lemma getitem_range d (i : Z) :
  (0 < _size d -> 0 < capacity d) ->
  (- _size d <= i <= _size d - 1 ->
     exists v, __getitem__ (IdxInt i) d = (Ok v, d)) /\
  (~ (- _size d <= i <= _size d - 1) ->
     __getitem__ (IdxInt i) d = (Raise IndexError, d)) /\
  (0 < _size d ->
     __getitem__ (IdxInt (-1)) d = __getitem__ (IdxInt (_size d - 1)) d /\
     __getitem__ (IdxInt (- _size d)) d = __getitem__ (IdxInt 0) d).
Proof.
  intros Hcap. split; [|split].
  - intros Hi. destruct (decide (i < 0)).
    + eexists. apply getitem_negative; [apply Hcap|]; lia.
    + eexists. apply getitem_nonneg; [apply Hcap|]; lia.
  - intros Hi. apply getitem_out_of_range. lia.
  - intros Hn. specialize (Hcap Hn). split.
    + rewrite getitem_negative, getitem_nonneg by (done || lia).
      by replace (_size d + -1) with (_size d - 1) by lia.
    + rewrite getitem_negative, getitem_nonneg by (done || lia).
      by replace (_size d + - _size d) with 0 by lia.
Qed.

(** *** Resizing and indexing *)

Lemma slot_lookup d (i : Z) :
  0 <= i < _size d -> elements d !! Z.to_nat i = Some (slot d i).
Proof.
  intros Hi. rewrite lookup_elements by lia. by rewrite Z2Nat.id by lia.
Qed.

(** Indexing is determined by the logical contents. *)
Lemma getitem_elements d d' (i : Z) :
  0 < capacity d -> 0 < capacity d' ->
  elements d' = elements d -> _size d' = _size d ->
  fst (__getitem__ (IdxInt i) d') = fst (__getitem__ (IdxInt i) d).
Proof.
  intros Hc Hc' Hel Hsz.
  destruct (decide (i < - _size d \/ _size d <= i)) as [Hout|Hin].
  - rewrite !getitem_out_of_range by lia. done.
  - destruct (decide (i < 0)).
    + rewrite !getitem_negative by (done || lia). cbn. f_equal.
      pose proof (slot_lookup d (_size d + i)) as H1.
      pose proof (slot_lookup d' (_size d' + i)) as H2.
      rewrite Hel, Hsz in H2. rewrite H1 in H2 by lia.
      rewrite Hsz. symmetry. apply (inj Some). apply H2. lia.
    + rewrite !getitem_nonneg by (done || lia). cbn. f_equal.
      pose proof (slot_lookup d i) as H1.
      pose proof (slot_lookup d' i) as H2.
      rewrite Hel in H2. rewrite H1 in H2 by lia.
      symmetry. apply (inj Some). apply H2. lia.
Qed.

Lemma call_each_add_last (l : list (option A)) d :
  wf d ->
  exists d', call_each add_last l d = (Ok tt, d') /\ wf d' /\
    elements d' = elements d ++ l /\ _size d' = _size d + len l.
Proof.
  revert d. induction l as [|e l IH]; intros d Hwf.
  - exists d. rewrite app_nil_r. unfold len. cbn. split; [done|].
    split; [done|]. split; [done|lia].
  - destruct (add_last_spec d e Hwf) as (d1 & Hd1 & Hwf1 & Hel1 & Hsz1 & _).
    destruct (IH d1 Hwf1) as (d2 & Hd2 & Hwf2 & Hel2 & Hsz2).
    exists d2. cbn [call_each]. unfold bind. rewrite Hd1, Hd2.
    split; [done|]. split; [done|].
    rewrite Hel2, Hel1, <- app_assoc. split; [done|].
    unfold len in *. cbn [length]. lia.
Qed.

(** C6, amended.  [_resize] leaves [deque[i]] as it was for every index [i],
    negative ones included.  An [add_last] that triggers a resize doubles the
    capacity and leaves [deque[i]] as it was for every [0 <= i < size]; an
    [add_first] that triggers one doubles the capacity and moves the element
    of index [i] to index [i + 1].  Starting from a default deque, [add_last]
    of 11 elements keeps capacity 10 for the first ten insertions and makes it
    20 at the eleventh, and [deque[0..10]] are the 11 elements in insertion
    order. *)
Theorem C6_resize_transparent d e (l : list (option A)) :
  wf d -> _size d = capacity d -> length l = 11%nat ->
  (exists d', _resize (2 * capacity d) d = (Ok tt, d') /\
     capacity d' = 2 * capacity d /\
     forall i, fst (__getitem__ (IdxInt i) d') = fst (__getitem__ (IdxInt i) d)) /\
  (exists d', add_last e d = (Ok tt, d') /\ capacity d' = 2 * capacity d /\
     forall i, 0 <= i < _size d ->
       fst (__getitem__ (IdxInt i) d') = fst (__getitem__ (IdxInt i) d)) /\
  (exists d', add_first e d = (Ok tt, d') /\ capacity d' = 2 * capacity d /\
     forall i, 0 <= i < _size d ->
       fst (__getitem__ (IdxInt (i + 1)) d') = fst (__getitem__ (IdxInt i) d)) /\
  (forall k, (k <= 10)%nat ->
     capacity (snd (call_each add_last (take k l) (__init__ None))) = 10) /\
  capacity (snd (call_each add_last l (__init__ None))) = 20 /\
  (forall i, (i < 11)%nat ->
     fst (__getitem__ (IdxInt (Z.of_nat i)) (snd (call_each add_last l (__init__ None))))
     = Ok (default None (l !! i))).
Proof.
  intros Hwf Hfull Hlen. pose proof Hwf as [Hc Hf Hs].
  split; [|split; [|split]].
  - eexists. split; [apply resize_ok; [done|lia]|].
    split; [apply capacity_resized; lia|].
    intros i. apply getitem_elements; [done|rewrite capacity_resized; lia| |done].
    apply resized_elements; [done|lia..].
  - destruct (add_last_spec d e Hwf) as (d' & Hd' & Hwf' & Hel & Hsz & _ & Hcap).
    exists d'. split; [done|]. rewrite decide_True in Hcap by done.
    split; [done|]. intros i Hi. pose proof Hwf' as [Hc' _ _].
    rewrite !getitem_nonneg by (done || lia). cbn. f_equal.
    pose proof (slot_lookup d' i ltac:(lia)) as H1.
    rewrite Hel, lookup_app_l, slot_lookup in H1 by (rewrite ?length_elements; lia).
    by injection H1.
  - destruct (add_first_spec d e Hwf) as (d' & Hd' & Hwf' & Hel & Hsz & _ & Hcap).
    exists d'. split; [done|]. rewrite decide_True in Hcap by done.
    split; [done|]. intros i Hi. pose proof Hwf' as [Hc' _ _].
    rewrite !getitem_nonneg by (done || lia). cbn. f_equal.
    pose proof (slot_lookup d' (i + 1) ltac:(lia)) as H1.
    rewrite Hel in H1. replace (Z.to_nat (i + 1)) with (S (Z.to_nat i)) in H1 by lia.
    cbn [lookup list_lookup] in H1.
    fold (@lookup _ _ _ _ (Z.to_nat i) (elements d)) in H1.
    rewrite slot_lookup in H1 by lia. by injection H1.
  - do 11 (destruct l as [|? l]; [discriminate Hlen|]).
    destruct l; [|discriminate Hlen].
    split; [|split].
    + intros k Hk. do 11 (destruct k as [|k]; [vm_compute; reflexivity|]). lia.
    + vm_compute. reflexivity.
    + intros i Hi. do 11 (destruct i as [|i]; [vm_compute; reflexivity|]). lia.
Qed.

(** *** [rotate] *)

Lemma rotate_right_step d :
  wf d -> 0 < _size d ->
  exists d', (e <- delete_last ;; add_first e) d = (Ok tt, d') /\ wf d' /\
    _size d' = _size d /\ elements d' = rot_right (elements d).
Proof.
  intros Hwf Hpos.
  destruct (delete_last_spec d Hwf Hpos) as (d1 & Hdel & Hwf1 & Hel1 & Hsz1 & _ & Hcap1).
  destruct (add_first_spec d1 (slot d (_size d - 1)) Hwf1)
    as (d2 & Hadd & Hwf2 & Hel2 & Hsz2 & _).
  exists d2. unfold bind. rewrite Hdel, Hadd.
  split; [done|]. split; [done|]. split; [lia|].
  by rewrite Hel2, Hel1, rot_right_snoc.
Qed.

Lemma rotate_left_step d :
  wf d -> 0 < _size d ->
  exists d', (e <- delete_first ;; add_last e) d = (Ok tt, d') /\ wf d' /\
    _size d' = _size d /\ elements d' = rot_left (elements d).
Proof.
  intros Hwf Hpos.
  destruct (delete_first_spec d Hwf Hpos) as (d1 & Hdel & Hwf1 & Hel1 & Hsz1 & _ & Hcap1).
  destruct (add_last_spec d1 (slot d 0) Hwf1) as (d2 & Hadd & Hwf2 & Hel2 & Hsz2 & _).
  exists d2. unfold bind. rewrite Hdel, Hadd.
  split; [done|]. split; [done|]. split; [lia|].
  by rewrite Hel2, Hel1.
Qed.

(** A loop whose body does not look at the loop variable. *)
Lemma rotate_loop (m : M (ArrayDeque.t A) unit) (rot : list (option A) -> list (option A)) :
  (forall d, wf d -> 0 < _size d ->
     exists d', m d = (Ok tt, d') /\ wf d' /\ _size d' = _size d /\
       elements d' = rot (elements d)) ->
  forall (xs : list Z) d, wf d -> 0 < _size d ->
    exists d', for_each xs (fun _ => m) d = (Ok tt, d') /\ wf d' /\
      _size d' = _size d /\ elements d' = Nat.iter (length xs) rot (elements d).
Proof.
  intros Hm xs. induction xs as [|x xs IH]; intros d Hwf Hpos.
  - exists d. done.
  - destruct (Hm d Hwf Hpos) as (d1 & Hd1 & Hwf1 & Hsz1 & Hel1).
    destruct (IH d1 Hwf1 ltac:(lia)) as (d2 & Hd2 & Hwf2 & Hsz2 & Hel2).
    exists d2. cbn [for_each length]. unfold bind. rewrite Hd1, Hd2.
    split; [done|]. split; [done|]. split; [lia|].
    by rewrite Hel2, Hel1, Nat.iter_succ_r.
Qed.

Lemma rotate_right_ok d (n : Z) :
  wf d -> 0 < _size d -> 0 <= n ->
  exists d', rotate n d = (Ok tt, d') /\ wf d' /\ _size d' = _size d /\
    elements d' = Nat.iter (Z.to_nat n) rot_right (elements d).
Proof.
  intros Hwf Hpos Hn. unfold rotate. case_decide; [|lia].
  rewrite <- length_range. by apply rotate_loop; [apply rotate_right_step|..].
Qed.

Lemma rotate_left_ok d (n : Z) :
  wf d -> 0 < _size d -> n < 0 ->
  exists d', rotate n d = (Ok tt, d') /\ wf d' /\ _size d' = _size d /\
    elements d' = Nat.iter (Z.to_nat (- n)) rot_left (elements d).
Proof.
  intros Hwf Hpos Hn. unfold rotate. case_decide; [lia|].
  replace (Z.to_nat (- n)) with (length (range (Z.abs n)))
    by (rewrite length_range; lia).
  by apply rotate_loop; [apply rotate_left_step|..].
Qed.

(** C8, amended.  On a deque that holds at least one element and satisfies
    the invariant of the circular buffer, [rotate(k)] followed by
    [rotate(-k)] succeeds and restores the logical contents and their order,
    for every integer [k]. *)
Theorem C8_rotate_round_trip d (k : Z) :
  wf d -> 0 < _size d ->
  exists d', (rotate k ;; rotate (- k)) d = (Ok tt, d') /\
    elements d' = elements d /\ _size d' = _size d /\ wf d'.
Proof.
  intros Hwf Hpos. unfold bind.
  destruct (decide (0 < k)) as [Hk|Hk]; [|destruct (decide (k = 0)) as [->|Hk0]].
  - destruct (rotate_right_ok d k Hwf Hpos ltac:(lia)) as (d1 & -> & Hwf1 & Hsz1 & Hel1).
    destruct (rotate_left_ok d1 (- k) Hwf1 ltac:(lia) ltac:(lia))
      as (d2 & -> & Hwf2 & Hsz2 & Hel2).
    exists d2. split; [done|]. split; [|split; [lia|done]].
    rewrite Hel2, Hel1, Z.opp_involutive. apply iter_cancel, rot_left_right.
  - destruct (rotate_right_ok d 0 Hwf Hpos ltac:(lia)) as (d1 & -> & Hwf1 & Hsz1 & Hel1).
    destruct (rotate_right_ok d1 0 Hwf1 ltac:(lia) ltac:(lia))
      as (d2 & Hd2 & Hwf2 & Hsz2 & Hel2).
    change (- 0) with 0. rewrite Hd2.
    exists d2. split; [done|]. split; [|split; [lia|done]].
    by rewrite Hel2, Hel1.
  - destruct (rotate_left_ok d k Hwf Hpos ltac:(lia)) as (d1 & -> & Hwf1 & Hsz1 & Hel1).
    destruct (rotate_right_ok d1 (- k) Hwf1 ltac:(lia) ltac:(lia))
      as (d2 & -> & Hwf2 & Hsz2 & Hel2).
    exists d2. split; [done|]. split; [|split; [lia|done]].
    rewrite Hel2, Hel1. apply iter_cancel, rot_right_left.
Qed.

End ArrayDequeFacts.

Section ArrayDequeCalls.
Context {A : Type} `{EqDecision A}.
Import ArrayDeque.
Implicit Types (d : ArrayDeque.t A) (e v : option A) (o : ArrayDeque.op A).

(** *** No method assigns [_maxlen] *)

Lemma resize_keeps_maxlen (cap : Z) : stable (@_maxlen A) (_resize cap).
Proof. unfold _resize. solve_stable. Qed.

Lemma exec_keeps_maxlen o : stable _maxlen (exec o).
Proof.
  pose proof resize_keeps_maxlen.
  destruct o; unfold exec, add_first, add_last, delete_first, delete_last, remove,
    rotate, clear, __setitem__, __getitem__, locate, first, last, count, __len__,
    is_empty, is_full, shift_towards_front, shift_towards_back;
    solve_stable.
Qed.

Lemma run_keeps_maxlen (ops : list (op A)) d : _maxlen (run ops d) = _maxlen d.
Proof.
  revert d. induction ops as [|o ops IH]; intros d; [done|].
  change (run (o :: ops) d) with (run ops (snd (exec o d))).
  rewrite IH. apply exec_keeps_maxlen.
Qed.

(** *** What every call preserves *)

Ltac use_outcomes :=
  repeat match goal with
    | H : py_setitem _ _ _ = Ok _ |- _ => apply py_setitem_len in H
    | H : py_mod _ _ = Ok _ |- _ => apply py_mod_nonzero in H
    end.

Ltac sane_done :=
  use_outcomes; unfold sane, capacity, modify, ret, raise, lift in *;
  cbn [_data _size _front _maxlen set_data set_size set_front fst snd] in *;
  repeat match goal with
    | |- context [len ?l] =>
        lazymatch goal with
        | _ : 0 <= len l |- _ => fail
        | _ => pose proof (len_nonneg l)
        end
    end;
  try lia.

Lemma resize_loop_shape (old : list (option A)) (ks : list Z) (walk : Z) d :
  _size (snd (for_fold ks walk (fun k walk =>
            x <- lift (py_getitem old walk) ;;
            self <- get ;;
            d' <- lift (py_setitem (_data self) k x) ;;
            modify (set_data d') ;;
            lift (py_mod (1 + walk) (len old))) d)) = _size d /\
  capacity (snd (for_fold ks walk (fun k walk =>
            x <- lift (py_getitem old walk) ;;
            self <- get ;;
            d' <- lift (py_setitem (_data self) k x) ;;
            modify (set_data d') ;;
            lift (py_mod (1 + walk) (len old))) d)) = capacity d.
Proof.
  revert walk d. induction ks as [|k ks IH]; intros walk d; [done|].
  cbn [for_fold]. mstep.
  mcase; [|done]. mcase; [|done]. mcase; [|split; sane_done].
  match goal with
  | |- context [for_fold ks ?w _ ?s] => destruct (IH w s) as [-> ->]
  end.
  split; sane_done.
Qed.

Lemma resize_shape (cap : Z) d :
  _size (snd (_resize cap d)) = _size d /\
  capacity (snd (_resize cap d)) = Z.max 0 cap.
Proof.
  unfold _resize. mstep.
  pose proof (resize_loop_shape (_data d) (range (_size d)) (_front d)
                (set_data (py_nones cap) d)) as Hloop.
  revert Hloop. unfold bind.
  match goal with
  | |- context [for_fold ?a ?b ?c ?s] => destruct (for_fold a b c s) as [[w|ex] d1]
  end; cbn [fst snd]; intros [Hsz Hcap]; unfold modify; cbn [fst snd];
    unfold capacity in *; cbn [_data _size set_data set_front] in *;
    rewrite Hsz, Hcap; (split; [done|]);
    unfold len, py_nones; rewrite length_replicate; lia.
Qed.

Lemma add_first_sane e d : sane d -> sane (snd (add_first e d)).
Proof.
  intros Hs. unfold add_first. mstep.
  case_decide as Hfull; mstep.
  - unfold bind at 1.
    destruct (resize_shape (2 * len (_data d)) d) as [Hsz Hcap]. revert Hsz Hcap.
    destruct (_resize (2 * len (_data d)) d) as [[[]|ex] d1];
      cbn [fst snd]; intros Hsz Hcap; [|sane_done].
    mstep. mcase; [|sane_done]. mcase; sane_done.
  - mcase; [|sane_done]. mcase; sane_done.
Qed.

Lemma add_last_sane e d : sane d -> sane (snd (add_last e d)).
Proof.
  intros Hs. unfold add_last. mstep.
  case_decide as Hfull; mstep.
  - unfold bind at 1.
    destruct (resize_shape (2 * len (_data d)) d) as [Hsz Hcap]. revert Hsz Hcap.
    destruct (_resize (2 * len (_data d)) d) as [[[]|ex] d1];
      cbn [fst snd]; intros Hsz Hcap; [|sane_done].
    mstep. mcase; [|sane_done]. mcase; sane_done.
  - mcase; [|sane_done]. mcase; sane_done.
Qed.

Lemma delete_first_sane d : sane d -> sane (snd (delete_first d)).
Proof.
  intros Hs. unfold delete_first, is_empty. mstep.
  case_bool_decide; mstep; [done|].
  mcase; [|done]. mcase; [|done]. mcase; sane_done.
Qed.

Lemma delete_last_sane d : sane d -> sane (snd (delete_last d)).
Proof.
  intros Hs. unfold delete_last, is_empty. mstep.
  case_bool_decide; mstep; [done|].
  mcase; [|done]. mcase; [|done]. mcase; sane_done.
Qed.

(** The search of [remove] only reads. *)
Lemma remove_scan_shape (value : option A) (xs : list Z) d :
  snd (for_break xs (fun i =>
         self <- get ;;
         current <- lift (py_mod (_front self + i) (len (_data self))) ;;
         x <- lift (py_getitem (_data self) current) ;;
         ret (bool_decide (x = value))) d) = d /\
  forall i, fst (for_break xs (fun i =>
         self <- get ;;
         current <- lift (py_mod (_front self + i) (len (_data self))) ;;
         x <- lift (py_getitem (_data self) current) ;;
         ret (bool_decide (x = value))) d) = Ok (Some i) -> i ∈ xs.
Proof.
  induction xs as [|k ks IH]; [done|].
  cbn [for_break]. mstep. mcase; [|done]. mcase; [|done].
  case_bool_decide.
  - split; [done|]. intros i [= <-]. left.
  - destruct IH as [IH1 IH2]. split; [done|]. intros i Hi. right. by apply IH2.
Qed.

Lemma shift_towards_front_shape (i : Z) d :
  _size (snd (shift_towards_front i d)) = _size d /\
  capacity (snd (shift_towards_front i d)) = capacity d.
Proof.
  unfold shift_towards_front. mstep.
  mcase; [|done]. mcase; [|done]. mcase; [|done]. mcase; [|done].
  mcase; [|split; sane_done]. mcase; split; sane_done.
Qed.

Lemma shift_towards_back_shape (i : Z) d :
  _size d - 1 <= _size (snd (shift_towards_back i d)) <= _size d /\
  capacity (snd (shift_towards_back i d)) = capacity d.
Proof.
  unfold shift_towards_back. mstep.
  mcase; [|split; sane_done]. mcase; [|split; sane_done].
  mcase; [|split; sane_done]. mcase; [|split; sane_done].
  mcase; split; sane_done.
Qed.

Lemma shift_back_loop_shape (xs : list Z) d :
  _size d - len xs <= _size (snd (for_each xs shift_towards_back d)) <= _size d /\
  capacity (snd (for_each xs shift_towards_back d)) = capacity d.
Proof.
  revert d. induction xs as [|x xs IH]; intros d; [unfold len; cbn; lia|].
  cbn [for_each]. unfold bind.
  destruct (shift_towards_back_shape x d) as [Hsz Hcap]. revert Hsz Hcap.
  destruct (shift_towards_back x d) as [[[]|ex] d1]; cbn [fst snd]; intros Hsz Hcap.
  - destruct (IH d1) as [Hsz1 Hcap1]. unfold len in *. cbn [length].
    split; [lia|congruence].
  - unfold len. cbn [length]. split; [lia|done].
Qed.

Lemma remove_sane (value : option A) d : sane d -> sane (snd (remove value d)).
Proof.
  intros Hs. unfold remove. mstep. unfold bind at 1.
  destruct (remove_scan_shape value (range (_size d)) d) as [Hst Hfound].
  revert Hst Hfound.
  match goal with
  | |- context [for_break ?a ?b ?s] => destruct (for_break a b s) as [[[i|]|ex] d1]
  end; cbn [fst snd]; intros -> Hfound; [|exact Hs|exact Hs].
  specialize (Hfound i eq_refl). apply elem_of_range in Hfound. mstep.
  case_decide as Hhalf.
  - destruct (for_each_preserves
                (fun s : ArrayDeque.t A => _size s = _size d /\ capacity s = capacity d)
                (range_up i (_size d - 1)) shift_towards_front) with (s := d)
      as [Hsz Hcap]; [|done|].
    + intros x s [Hsz Hcap]. destruct (shift_towards_front_shape x s). split; congruence.
    + destruct Hs. split; [lia|]. rewrite Hsz, Hcap. done.
  - destruct (shift_back_loop_shape (range_down i 0) d) as [Hsz Hcap].
    assert (len (range_down i 0) = i) as Hlen.
    { unfold len, range_down. rewrite length_map, length_seq. lia. }
    rewrite Hlen in Hsz. pose proof (half_le (_size d)). destruct Hs as [Hs1 Hs2].
    split; [lia|]. rewrite Hcap. intros. apply Hs2. lia.
Qed.

Lemma exec_sane o d : sane d -> sane (snd (exec o d)).
Proof.
  intros Hs. destruct o; unfold exec; rewrite ?snd_then_ret.
  - by apply add_first_sane.
  - by apply add_last_sane.
  - by apply delete_first_sane.
  - by apply delete_last_sane.
  - by apply remove_sane.
  - unfold rotate. case_decide.
    + apply for_each_preserves; [|done]. intros _ s Hsane. unfold bind.
      pose proof (delete_last_sane s Hsane) as H1.
      destruct (delete_last s) as [[x|ex] s1]; [by apply add_first_sane|done].
    + apply for_each_preserves; [|done]. intros _ s Hsane. unfold bind.
      pose proof (delete_first_sane s Hsane) as H1.
      destruct (delete_first s) as [[x|ex] s1]; [by apply add_last_sane|done].
  - unfold clear. mstep. split; sane_done.
  - destruct i; [done| |done]. unfold __setitem__, locate. mstep.
    case_decide; mstep; [done|]. case_decide; (mcase; [|done]); mcase; sane_done.
  - replace (snd (__getitem__ i d)) with d; [done|].
    symmetry. apply (stable_id (__getitem__ i)).
    destruct i; unfold __getitem__, locate; solve_stable.
  - replace (snd (first d)) with d; [done|].
    symmetry. apply (stable_id first). unfold first, is_empty. solve_stable.
  - replace (snd (last d)) with d; [done|].
    symmetry. apply (stable_id last). unfold last, is_empty. solve_stable.
  - replace (snd (count value d)) with d; [done|].
    symmetry. apply (stable_id (count value)). unfold count. solve_stable.
  - done.
  - done.
  - done.
Qed.

Lemma run_sane (maxlen : option Z) (ops : list (op A)) :
  sane (run ops (__init__ maxlen)).
Proof.
  assert (forall d, sane d -> sane (run ops d)) as Hrun.
  { induction ops as [|o ops IH]; intros d Hs; [done|].
    change (run (o :: ops) d) with (run ops (snd (exec o d))).
    apply IH. by apply exec_sane. }
  apply Hrun. split; cbn; lia.
Qed.

(** *** The invariant of the circular buffer, without [remove] *)

Lemma fresh_data_len (maxlen : option Z) :
  maxlen_valid maxlen -> 0 < len (@fresh_data A maxlen).
Proof.
  intros Hm. unfold fresh_data, unbounded_start.
  destruct maxlen as [m|]; [|by rewrite len_py_nones].
  cbn in Hm. cbn [default]. unfold id.
  repeat case_bool_decide; cbn [orb]; rewrite len_py_nones;
    unfold DEFAULT_CAPACITY in *; lia.
Qed.

Lemma init_wf (maxlen : option Z) : maxlen_valid maxlen -> wf (@__init__ A maxlen).
Proof.
  intros Hm. pose proof (fresh_data_len maxlen Hm).
  split; unfold capacity, __init__; cbn; lia.
Qed.

Lemma exec_wf o d :
  calls_remove o = false -> maxlen_valid (_maxlen d) ->
  wf d -> wf (snd (exec o d)).
Proof.
  intros Ho Hm Hwf. pose proof Hwf as [Hc Hf Hs].
  assert (forall s : ArrayDeque.t A, wf s -> wf (snd (delete_first s))) as Hdf.
  { intros s Hs0. destruct (decide (_size s = 0)) as [Hz|Hnz].
    - unfold delete_first, is_empty. mstep. by rewrite bool_decide_eq_true_2.
    - pose proof (wf_size _ Hs0).
      by destruct (delete_first_spec s Hs0 ltac:(lia)) as (s' & -> & ? & _). }
  assert (forall s : ArrayDeque.t A, wf s -> wf (snd (delete_last s))) as Hdl.
  { intros s Hs0. destruct (decide (_size s = 0)) as [Hz|Hnz].
    - unfold delete_last, is_empty. mstep. by rewrite bool_decide_eq_true_2.
    - pose proof (wf_size _ Hs0).
      by destruct (delete_last_spec s Hs0 ltac:(lia)) as (s' & -> & ? & _). }
  destruct o; try discriminate Ho; unfold exec; rewrite ?snd_then_ret.
  - by destruct (add_first_spec d e Hwf) as (d' & -> & ? & _).
  - by destruct (add_last_spec d e Hwf) as (d' & -> & ? & _).
  - by apply Hdf.
  - by apply Hdl.
  - unfold rotate. case_decide.
    + apply for_each_preserves; [|done]. intros _ s Hs0. unfold bind.
      pose proof (Hdl s Hs0) as H1.
      destruct (delete_last s) as [[x|ex] s1]; [|done]. cbn in H1.
      by destruct (add_first_spec s1 x H1) as (d' & -> & ? & _).
    + apply for_each_preserves; [|done]. intros _ s Hs0. unfold bind.
      pose proof (Hdf s Hs0) as H1.
      destruct (delete_first s) as [[x|ex] s1]; [|done]. cbn in H1.
      by destruct (add_last_spec s1 x H1) as (d' & -> & ? & _).
  - unfold clear. mstep. pose proof (fresh_data_len _ Hm).
    split; unfold capacity, modify; cbn; lia.
  - destruct i; [done| |done]. unfold __setitem__, locate. mstep.
    case_decide; mstep; [done|].
    case_decide; (mcase; [|done]); mcase; try done;
      use_outcomes; split; unfold capacity, modify in *; cbn in *; lia.
  - replace (snd (__getitem__ i d)) with d; [done|].
    symmetry. apply (stable_id (__getitem__ i)).
    destruct i; unfold __getitem__, locate; solve_stable.
  - replace (snd (first d)) with d; [done|].
    symmetry. apply (stable_id first). unfold first, is_empty. solve_stable.
  - replace (snd (last d)) with d; [done|].
    symmetry. apply (stable_id last). unfold last, is_empty. solve_stable.
  - replace (snd (count value d)) with d; [done|].
    symmetry. apply (stable_id (count value)). unfold count. solve_stable.
  - done.
  - done.
  - done.
Qed.

(** Every deque that was built without [remove] satisfies the invariant. *)
Lemma run_wf (maxlen : option Z) (ops : list (op A)) :
  maxlen_valid maxlen -> forallb (fun o => negb (calls_remove o)) ops = true ->
  wf (run ops (__init__ maxlen)).
Proof.
  intros Hm Hops.
  assert (forall d, maxlen_valid (_maxlen d) -> wf d -> wf (run ops d)) as Hrun.
  { induction ops as [|o ops IH]; intros d Hmd Hwf; [done|].
    cbn in Hops. apply andb_prop in Hops as [Ho Hops].
    change (run (o :: ops) d) with (run ops (snd (exec o d))).
    apply IH; [done| |].
    - by rewrite exec_keeps_maxlen.
    - apply exec_wf; [by destruct (calls_remove o)|done..]. }
  apply Hrun; [done|by apply init_wf].
Qed.

(** *** The length along a run without [remove] *)

Lemma rotate_size (n : Z) d : wf d -> _size (snd (rotate n d)) = _size d.
Proof.
  intros Hwf.
  assert (forall (m : M (ArrayDeque.t A) unit) (xs : list Z),
    (forall s : ArrayDeque.t A, wf s ->
       wf (snd (m s)) /\ _size (snd (m s)) = _size s) ->
    _size (snd (for_each xs (fun _ => m) d)) = _size d) as Hloop.
  { intros m xs Hm.
    apply (for_each_preserves (fun s : ArrayDeque.t A => wf s /\ _size s = _size d));
      [|done].
    intros _ s [Hs Hsz]. destruct (Hm s Hs) as [H1 H2]. split; [done|lia]. }
  unfold rotate. case_decide; apply Hloop; intros s Hs.
  - destruct (decide (_size s = 0)) as [Hz|Hnz].
    + unfold bind, delete_last, is_empty, get, ret, raise. cbn.
      by rewrite bool_decide_eq_true_2.
    + pose proof (wf_size _ Hs).
      by destruct (rotate_right_step s Hs ltac:(lia)) as (s' & -> & ? & ? & _).
  - destruct (decide (_size s = 0)) as [Hz|Hnz].
    + unfold bind, delete_first, is_empty, get, ret, raise. cbn.
      by rewrite bool_decide_eq_true_2.
    + pose proof (wf_size _ Hs).
      by destruct (rotate_left_step s Hs ltac:(lia)) as (s' & -> & ? & ? & _).
Qed.

Lemma exec_ledger o d :
  calls_remove o = false -> wf d ->
  _size (snd (exec o d)) = ledger_step o (succeeds o d) (_size d).
Proof.
  intros Ho Hwf. pose proof (wf_size _ Hwf) as Hs.
  destruct o; try discriminate Ho; unfold succeeds, exec; cbn [ledger_step].
  - by destruct (add_first_spec d e Hwf) as (d' & -> & _ & _ & ? & _).
  - by destruct (add_last_spec d e Hwf) as (d' & -> & _ & _ & ? & _).
  - destruct (decide (_size d = 0)) as [Hz|Hnz].
    + unfold bind, delete_first, is_empty, get, ret, raise. cbn.
      by rewrite bool_decide_eq_true_2.
    + unfold bind at 1 2.
      by destruct (delete_first_spec d Hwf ltac:(lia)) as (d' & -> & _ & _ & ? & _).
  - destruct (decide (_size d = 0)) as [Hz|Hnz].
    + unfold bind, delete_last, is_empty, get, ret, raise. cbn.
      by rewrite bool_decide_eq_true_2.
    + unfold bind at 1 2.
      by destruct (delete_last_spec d Hwf ltac:(lia)) as (d' & -> & _ & _ & ? & _).
  - rewrite rotate_size by done. by destruct (rotate n d) as [[[]|ex] d'].
  - done.
  - assert (stable (@_size A) (__setitem__ i v)) as Hst
      by (destruct i; unfold __setitem__, locate; solve_stable).
    rewrite (Hst d). by destruct (__setitem__ i v d) as [[[]|ex] d'].
  - assert (stable (@_size A) (__getitem__ i)) as Hst
      by (destruct i; unfold __getitem__, locate; solve_stable).
    rewrite snd_then_ret, (Hst d).
    by destruct ((__getitem__ i ;; ret tt) d) as [[[]|ex] d'].
  - assert (stable (@_size A) first) as Hst
      by (unfold first, is_empty; solve_stable).
    rewrite snd_then_ret, (Hst d). by destruct ((first ;; ret tt) d) as [[[]|ex] d'].
  - assert (stable (@_size A) last) as Hst
      by (unfold last, is_empty; solve_stable).
    rewrite snd_then_ret, (Hst d). by destruct ((last ;; ret tt) d) as [[[]|ex] d'].
  - assert (stable (@_size A) (count value)) as Hst
      by (unfold count; solve_stable).
    rewrite snd_then_ret, (Hst d).
    by destruct ((count value ;; ret tt) d) as [[[]|ex] d'].
  - done.
  - done.
  - done.
Qed.

Lemma run_ledger (ops : list (op A)) d :
  maxlen_valid (_maxlen d) -> forallb (fun o => negb (calls_remove o)) ops = true ->
  wf d -> _size (run ops d) = balance_since_clear ops d (_size d).
Proof.
  revert d. induction ops as [|o ops IH]; intros d Hm Hops Hwf; [done|].
  cbn in Hops. apply andb_prop in Hops as [Ho Hops].
  assert (calls_remove o = false) as Ho' by (by destruct (calls_remove o)).
  change (run (o :: ops) d) with (run ops (snd (exec o d))).
  cbn [balance_since_clear]. rewrite <- exec_ledger by done.
  apply IH; [by rewrite exec_keeps_maxlen|done|by apply exec_wf].
Qed.

(** C2, amended.  Along every sequence of calls that does not call [remove],
    on a deque constructed with a [maxlen] that is not negative, [len] is the
    number of successful insertions minus the number of successful
    [delete_first] and [delete_last] since construction or the last
    [clear()]. *)
Theorem C2_len_is_balance (maxlen : option Z) (ops : list (op A)) :
  maxlen_valid maxlen -> forallb (fun o => negb (calls_remove o)) ops = true ->
  __len__ (run ops (__init__ maxlen))
  = (Ok (balance_since_clear ops (__init__ maxlen) 0), run ops (__init__ maxlen)).
Proof.
  intros Hm Hops. unfold __len__. mstep. unfold ret. do 2 f_equal.
  by apply run_ledger; [..|apply init_wf].
Qed.

(** C7. Integer index access.  On every deque, that is, on the state that
    any sequence of calls leaves from any constructor argument, [deque[i]]
    succeeds exactly for [-n <= i <= n-1], where [n] is the size, and raises
    [IndexError] for every other integer, the deque being left as it was in
    both cases; on a non-empty deque [deque[-1]] is [deque[n-1]] and
    [deque[-n]] is [deque[0]]. *)
Theorem C7_getitem_range (maxlen : option Z) (ops : list (op A)) (i : Z) d :
  d = run ops (__init__ maxlen) ->
  (- _size d <= i <= _size d - 1 ->
     exists v, __getitem__ (IdxInt i) d = (Ok v, d)) /\
  (~ (- _size d <= i <= _size d - 1) ->
     __getitem__ (IdxInt i) d = (Raise IndexError, d)) /\
  (0 < _size d ->
     __getitem__ (IdxInt (-1)) d = __getitem__ (IdxInt (_size d - 1)) d /\
     __getitem__ (IdxInt (- _size d)) d = __getitem__ (IdxInt 0) d).
Proof.
  intros ->. apply getitem_range. apply run_sane.
Qed.

(** C3, amended.  On a deque constructed with [maxlen = m], after every
    sequence of calls, [is_full()] returns true exactly when the capacity is
    [m].  The capacity is [min(10, m)] after construction; it is not bounded by
    [m] afterwards: an insertion into a deque whose size equals its capacity
    doubles the capacity, whatever [_maxlen] is. *)
Theorem C3_is_full_capacity (m : Z) (ops : list (op A)) d e :
  1 <= m -> wf d -> _size d = capacity d ->
  (exists b, is_full (run ops (__init__ (Some m))) = (Ok b, run ops (__init__ (Some m))) /\
     (b = true <-> capacity (run ops (__init__ (Some m))) = m)) /\
  capacity (@__init__ A (Some m)) = Z.min 10 m /\
  (exists d', add_last e d = (Ok tt, d') /\ capacity d' = 2 * capacity d) /\
  (exists d', add_first e d = (Ok tt, d') /\ capacity d' = 2 * capacity d).
Proof.
  intros Hm Hwf Hfull. split; [|split; [|split]].
  - eexists. split; [reflexivity|].
    rewrite run_keeps_maxlen. cbn [__init__ _maxlen]. unfold capacity.
    rewrite bool_decide_eq_true. split; [by intros [= ->]|by intros ->].
  - unfold capacity, __init__, fresh_data, unbounded_start. cbn [_data default].
    destruct (decide (m >= 10)).
    + rewrite (bool_decide_eq_true_2 (m >= DEFAULT_CAPACITY)) by done.
      rewrite orb_true_r. unfold DEFAULT_CAPACITY. rewrite len_py_nones; lia.
    + rewrite (bool_decide_eq_false_2 (m >= DEFAULT_CAPACITY)) by done.
      rewrite (bool_decide_eq_false_2 (m = 0)) by lia.
      cbn [orb]. unfold id. rewrite len_py_nones; lia.
  - destruct (add_last_spec d e Hwf) as (d' & Hd' & _ & _ & _ & _ & Hcap).
    exists d'. by rewrite decide_True in Hcap.
  - destruct (add_first_spec d e Hwf) as (d' & Hd' & _ & _ & _ & _ & Hcap).
    exists d'. by rewrite decide_True in Hcap.
Qed.

(** *** Calls that fail by contract *)

Lemma remove_scan_absent d (value : option A) (xs : list Z) :
  0 < capacity d ->
  (forall i, i ∈ xs -> slot d i <> value) ->
  for_break xs (fun i =>
    self <- get ;;
    current <- lift (py_mod (_front self + i) (len (_data self))) ;;
    x <- lift (py_getitem (_data self) current) ;;
    ret (bool_decide (x = value))) d = (Ok None, d).
Proof.
  intros Hc. unfold capacity in Hc. induction xs as [|i xs IH]; intros Hxs; [done|].
  cbn [for_break]. mstep. rewrite py_mod_ok by lia. mstep.
  rewrite py_getitem_ok by (apply mod_range; lia). mstep.
  rewrite bool_decide_eq_false_2; [|apply Hxs; left].
  apply IH. intros j Hj. apply Hxs. by right.
Qed.

Lemma remove_absent d (value : option A) :
  (0 < _size d -> 0 < capacity d) ->
  (forall i, 0 <= i < _size d -> slot d i <> value) ->
  remove value d = (Raise ValueError, d).
Proof.
  intros Hc Habs. unfold remove. mstep.
  destruct (decide (0 < _size d)) as [Hpos|Hz].
  - unfold bind at 1. rewrite remove_scan_absent; [done|by apply Hc|].
    intros i Hi. apply Habs. by apply elem_of_range.
  - unfold range, range_up. rewrite Z2Nat.nonpos by lia. done.
Qed.

Lemma deque_failed_call o d :
  fails_by_contract o d -> exec o d = (Raise (expected_exn o), d).
Proof.
  destruct o as [| | | |value| | |i v|i| | | | | |]; cbn [fails_by_contract];
    try done; intros H.
  - unfold exec, delete_first, is_empty. mstep.
    by rewrite bool_decide_eq_true_2.
  - unfold exec, delete_last, is_empty. mstep.
    by rewrite bool_decide_eq_true_2.
  - destruct H. by apply remove_absent.
  - destruct i as [|i|]; [done| |done].
    unfold exec, __setitem__, locate. mstep. case_decide; [done|lia].
  - destruct i as [|i|]; [done| |done].
    unfold exec, __getitem__, locate. mstep. case_decide; [done|lia].
  - unfold exec, first, is_empty. mstep. by rewrite bool_decide_eq_true_2.
  - unfold exec, last, is_empty. mstep. by rewrite bool_decide_eq_true_2.
Qed.

End ArrayDequeCalls.

(** ** ArrayQueue: the same circular buffer *)

Lemma sim_ret {S1 S2 B} (f : S1 -> S2) (s : S1) (a : B) : sim_at f s (ret a) (ret a).
Proof. done. Qed.

Lemma sim_raise {S1 S2 B} (f : S1 -> S2) (s : S1) (e : exn) :
  sim_at f s (@raise S1 B e) (raise e).
Proof. done. Qed.

Lemma sim_lift {S1 S2 B} (f : S1 -> S2) (s : S1) (r : outcome B) :
  sim_at f s (lift r) (lift r).
Proof. done. Qed.

Lemma sim_modify {S1 S2} (f : S1 -> S2) (s : S1) (g1 : S1 -> S1) (g2 : S2 -> S2) :
  g2 (f s) = f (g1 s) -> sim_at f s (modify g1) (modify g2).
Proof. intros H. unfold sim_at, modify. cbn. by rewrite H. Qed.

Lemma sim_bind {S1 S2 B C} (f : S1 -> S2) (s : S1)
    (m1 : M S1 B) (m2 : M S2 B) (k1 : B -> M S1 C) (k2 : B -> M S2 C) :
  sim_at f s m1 m2 ->
  (forall a, sim_at f (snd (m1 s)) (k1 a) (k2 a)) ->
  sim_at f s (bind m1 k1) (bind m2 k2).
Proof.
  unfold sim_at, bind. intros -> Hk.
  destruct (m1 s) as [[a|e] s']; cbn in *; [apply Hk|done].
Qed.

Lemma sim_bind_get {S1 S2 C} (f : S1 -> S2) (s : S1)
    (k1 : S1 -> M S1 C) (k2 : S2 -> M S2 C) :
  sim_at f s (k1 s) (k2 (f s)) -> sim_at f s (bind get k1) (bind get k2).
Proof. done. Qed.

Lemma sim_for_fold {S1 S2 B} (f : S1 -> S2) (xs : list Z)
    (b1 : Z -> B -> M S1 B) (b2 : Z -> B -> M S2 B) :
  (forall x a s, sim_at f s (b1 x a) (b2 x a)) ->
  forall acc s, sim_at f s (for_fold xs acc b1) (for_fold xs acc b2).
Proof.
  intros Hb. induction xs as [|x xs IH]; intros acc s; [done|].
  cbn [for_fold]. apply sim_bind; [apply Hb|]. intros a. apply IH.
Qed.

Section ArrayQueueFacts.
Context {A : Type}.
Implicit Types (q : ArrayQueue.t A) (e : option A).

Ltac sim_step :=
  cbn [as_deque ArrayDeque._data ArrayDeque._size ArrayDeque._front ArrayDeque._maxlen];
  first
    [ apply sim_ret | apply sim_raise | apply sim_lift
    | apply sim_modify; reflexivity
    | apply sim_bind_get
    | apply sim_bind; [|intros] ].

Lemma resize_sim (cap : Z) q :
  sim_at as_deque q (ArrayQueue._resize cap) (ArrayDeque._resize cap).
Proof.
  unfold ArrayQueue._resize, ArrayDeque._resize.
  sim_step. sim_step; [sim_step|]. sim_step; [|sim_step].
  apply sim_for_fold. intros x walk s. repeat sim_step.
Qed.

Lemma enqueue_sim e q :
  sim_at as_deque q (ArrayQueue.enqueue e) (ArrayDeque.add_last e).
Proof.
  unfold ArrayQueue.enqueue, ArrayDeque.add_last.
  sim_step. sim_step; [case_decide; [apply resize_sim|sim_step]|].
  repeat sim_step.
Qed.

Lemma dequeue_sim q :
  sim_at as_deque q ArrayQueue.dequeue ArrayDeque.delete_first.
Proof.
  unfold ArrayQueue.dequeue, ArrayDeque.delete_first,
    ArrayQueue.is_empty, ArrayDeque.is_empty.
  sim_step. sim_step || cbn [as_deque ArrayDeque._size].
  case_bool_decide; repeat sim_step.
Qed.

Lemma sim_result {S1 S2 B} (f : S1 -> S2) (s : S1) (m1 : M S1 B) (m2 : M S2 B)
    (r : outcome B) (s2 : S2) :
  sim_at f s m1 m2 -> m2 (f s) = (r, s2) ->
  exists s1, m1 s = (r, s1) /\ f s1 = s2.
Proof.
  unfold sim_at. intros -> [= <- <-]. exists (snd (m1 s)).
  by destruct (m1 s).
Qed.

Lemma queue_enqueue_spec e q :
  ArrayDeque.wf (as_deque q) ->
  exists q', ArrayQueue.enqueue e q = (Ok tt, q') /\ ArrayDeque.wf (as_deque q') /\
    ArrayDeque.elements (as_deque q') = ArrayDeque.elements (as_deque q) ++ [e].
Proof.
  intros Hwf.
  destruct (add_last_spec (as_deque q) e Hwf) as (d' & Hd' & Hwf' & Hel & _).
  destruct (sim_result _ _ _ _ _ _ (enqueue_sim e q) Hd') as (q' & Hq' & <-).
  by exists q'.
Qed.

Lemma queue_dequeue_spec q :
  ArrayDeque.wf (as_deque q) -> 0 < ArrayQueue._size q ->
  exists q', ArrayQueue.dequeue q = (Ok (ArrayDeque.slot (as_deque q) 0), q') /\
    ArrayDeque.wf (as_deque q') /\
    ArrayDeque.elements (as_deque q) =
      ArrayDeque.slot (as_deque q) 0 :: ArrayDeque.elements (as_deque q').
Proof.
  intros Hwf Hpos.
  destruct (delete_first_spec (as_deque q) Hwf Hpos) as (d' & Hd' & Hwf' & Hel & _).
  destruct (sim_result _ _ _ _ _ _ (dequeue_sim q) Hd') as (q' & Hq' & <-).
  by exists q'.
Qed.

Lemma queue_enqueue_all (l : list (option A)) q :
  ArrayDeque.wf (as_deque q) ->
  exists q', call_each ArrayQueue.enqueue l q = (Ok tt, q') /\
    ArrayDeque.wf (as_deque q') /\
    ArrayDeque.elements (as_deque q') = ArrayDeque.elements (as_deque q) ++ l.
Proof.
  revert q. induction l as [|e l IH]; intros q Hwf.
  - exists q. by rewrite app_nil_r.
  - destruct (queue_enqueue_spec e q Hwf) as (q1 & Hq1 & Hwf1 & Hel1).
    destruct (IH q1 Hwf1) as (q2 & Hq2 & Hwf2 & Hel2).
    exists q2. cbn [call_each]. unfold bind. rewrite Hq1, Hq2.
    by rewrite Hel2, Hel1, <- app_assoc.
Qed.

Lemma queue_dequeue_all (xs : list (option A)) q :
  ArrayDeque.wf (as_deque q) -> ArrayDeque.elements (as_deque q) = xs ->
  exists q', collect (length xs) ArrayQueue.dequeue q = (Ok xs, q') /\
    ArrayDeque.wf (as_deque q') /\ ArrayDeque.elements (as_deque q') = [].
Proof.
  revert q. induction xs as [|x xs IH]; intros q Hwf Hel.
  - exists q. done.
  - assert (0 < ArrayQueue._size q) as Hpos.
    { pose proof (length_elements (as_deque q)) as Hlen.
      rewrite Hel in Hlen. cbn in Hlen. lia. }
    destruct (queue_dequeue_spec q Hwf Hpos) as (q1 & Hq1 & Hwf1 & Hel1).
    rewrite Hel in Hel1. injection Hel1 as Hx Hxs.
    destruct (IH q1 Hwf1 (eq_sym Hxs)) as (q2 & Hq2 & Hwf2 & Hel2).
    exists q2. cbn [collect length]. unfold bind. rewrite Hq1, Hq2.
    by rewrite <- Hx.
Qed.

Lemma queue_init_wf : ArrayDeque.wf (as_deque (@ArrayQueue.__init__ A)).
Proof. split; vm_compute; done. Qed.

Lemma queue_fifo (es : list (option A)) :
  exists q', (call_each ArrayQueue.enqueue es ;;
              collect (length es) ArrayQueue.dequeue) ArrayQueue.__init__
             = (Ok es, q').
Proof.
  destruct (queue_enqueue_all es _ queue_init_wf) as (q1 & Hq1 & Hwf1 & Hel1).
  change (ArrayDeque.elements (as_deque ArrayQueue.__init__)) with (@nil (option A)) in Hel1.
  destruct (queue_dequeue_all es q1 Hwf1 Hel1) as (q2 & Hq2 & _).
  exists q2. unfold bind. by rewrite Hq1, Hq2.
Qed.

End ArrayQueueFacts.

(** ** LinkedQueue: chains of nodes in the store *)

Section LinkedQueueFacts.
Context {A : Type}.
Import LinkedQueue.
Implicit Types (q : LinkedQueue.t A) (h : store A) (e x : option A)
  (xs : list (option A)) (p : option loc).

Lemma lseg_insert_fresh h p xs (r : option loc) (l : loc) (n : node A) :
  h !! l = None -> lseg h p xs r -> lseg (<[l:=n]> h) p xs r.
Proof.
  intros Hl. revert p. induction xs as [|x xs IH]; intros p; [done|].
  cbn. intros (l0 & nx & -> & Hl0 & Hrest).
  exists l0, nx. split; [done|]. split; [|by apply IH].
  rewrite lookup_insert_ne; [done|]. intros ->. congruence.
Qed.

(** The node that ends the chain is not one of its nodes: its [_next] is
    [None]. *)
Lemma lseg_update_end h p xs (t : loc) x (n : node A) :
  h !! t = Some (Node x None) -> lseg h p xs (Some t) ->
  lseg (<[t:=n]> h) p xs (Some t).
Proof.
  intros Ht. revert p. induction xs as [|y xs IH]; intros p; [done|].
  cbn. intros (l0 & nx & -> & Hl0 & Hrest).
  exists l0, nx. split; [done|]. split; [|by apply IH].
  rewrite lookup_insert_ne; [done|]. intros ->.
  rewrite Ht in Hl0. injection Hl0 as _ <-.
  destruct xs; cbn in Hrest; [done|]. by destruct Hrest as (? & ? & ? & _).
Qed.

Lemma lseg_snoc h p xs (t : loc) x (nx : option loc) :
  lseg h p xs (Some t) -> h !! t = Some (Node x nx) -> lseg h p (xs ++ [x]) nx.
Proof.
  revert p. induction xs as [|y xs IH]; intros p.
  - cbn. intros -> Ht. by exists t, nx.
  - cbn. intros (l0 & n0 & -> & Hl0 & Hrest) Ht.
    exists l0, n0. split; [done|]. split; [done|]. by apply IH.
Qed.

Lemma alloc_fresh h (n : node A) : h !! fst (alloc h n) = None.
Proof. unfold alloc. cbn. apply not_elem_of_dom, is_fresh. Qed.

Lemma linked_repr_nil q :
  linked_repr q [] <-> _size q = 0 /\ _head q = None.
Proof. done. Qed.

Lemma linked_repr_nonempty q xs :
  xs <> [] ->
  linked_repr q xs <->
    _size q = Z.of_nat (length xs) /\
    exists t, _tail q = Some t /\
      lseg (heap q) (_head q) (removelast xs) (Some t) /\
      heap q !! t = Some (Node (default None (last xs)) None).
Proof. by destruct xs. Qed.

Lemma lseg_close h p xs (t : loc) (nx : option loc) :
  xs <> [] -> lseg h p (removelast xs) (Some t) ->
  h !! t = Some (Node (default None (last xs)) nx) -> lseg h p xs nx.
Proof.
  destruct xs as [|y ys _] using rev_ind; [done|]. intros _.
  rewrite removelast_last, last_snoc. apply lseg_snoc.
Qed.

Lemma linked_enqueue_spec q xs e :
  linked_repr q xs ->
  exists q', enqueue e q = (Ok tt, q') /\ linked_repr q' (xs ++ [e]).
Proof.
  intros Hrep. destruct q as [h hd tl sz].
  pose proof (alloc_fresh h (Node e None)) as Hfresh.
  unfold enqueue, new_node, is_empty, alloc in *. cbn in Hfresh.
  set (l := fresh (dom h)) in *.
  destruct (decide (xs = [])) as [->|Hne].
  - destruct Hrep as [Hsz Hhd]. cbn in Hsz, Hhd. subst.
    eexists. split; [reflexivity|].
    apply (linked_repr_nonempty _ [e]); [done|]. cbn.
    split; [done|]. exists l. split; [done|]. split; [done|]. apply lookup_insert_eq.
  - apply linked_repr_nonempty in Hrep as (Hsz & t & Htl & Hseg & Ht); [|done].
    cbn in Hsz, Htl, Hseg, Ht. subst tl.
    assert (l <> t) as Hlt by (intros ->; congruence).
    eexists. split.
    + cbn. unfold bind, get, modify, ret, set_next, lift, deref. cbn.
      rewrite bool_decide_eq_false_2; last first.
      { destruct xs; [done|]. cbn in Hsz. lia. }
      cbn. rewrite lookup_insert_ne, Ht by done. cbn. reflexivity.
    + apply linked_repr_nonempty; [by destruct xs|].
      rewrite removelast_last, last_snoc, length_app. cbn.
      split; [lia|]. exists l. split; [done|]. split.
      * apply lseg_close with t; [done| |apply lookup_insert_eq].
        apply lseg_update_end with (default None (last xs)).
        -- by rewrite lookup_insert_ne.
        -- by apply lseg_insert_fresh.
      * rewrite lookup_insert_ne by done. apply lookup_insert_eq.
Qed.

Lemma linked_dequeue_spec q x xs :
  linked_repr q (x :: xs) ->
  exists q', dequeue q = (Ok x, q') /\ linked_repr q' xs.
Proof.
  intros Hrep. destruct q as [h hd tl sz].
  apply linked_repr_nonempty in Hrep as (Hsz & t & Htl & Hseg & Ht); [|done].
  cbn in Hsz, Htl, Hseg, Ht. subst tl.
  unfold dequeue, is_empty. mstep.
  rewrite bool_decide_eq_false_2 by lia. mstep.
  destruct xs as [|y ys].
  - cbn in Hseg, Ht, Hsz. subst hd sz.
    unfold deref. rewrite Ht. mstep.
    rewrite bool_decide_eq_true_2 by lia. mstep.
    eexists. split; [reflexivity|done].
  - change (removelast (x :: y :: ys)) with (x :: removelast (y :: ys)) in Hseg.
    destruct Hseg as (l0 & nx & -> & Hl0 & Hrest).
    unfold deref. rewrite Hl0. mstep.
    rewrite bool_decide_eq_false_2 by (cbn in Hsz; lia). mstep.
    eexists. split; [reflexivity|].
    apply linked_repr_nonempty; [done|]. cbn [heap _head _tail _size].
    split; [cbn in *; lia|]. exists t. done.
Qed.

Lemma linked_enqueue_all (l : list (option A)) q xs :
  linked_repr q xs ->
  exists q', call_each enqueue l q = (Ok tt, q') /\ linked_repr q' (xs ++ l).
Proof.
  revert q xs. induction l as [|e l IH]; intros q xs Hrep.
  - exists q. by rewrite app_nil_r.
  - destruct (linked_enqueue_spec q xs e Hrep) as (q1 & Hq1 & Hrep1).
    destruct (IH q1 _ Hrep1) as (q2 & Hq2 & Hrep2).
    exists q2. cbn [call_each]. unfold bind. rewrite Hq1, Hq2.
    by rewrite <- app_assoc in Hrep2.
Qed.

Lemma linked_dequeue_all xs q :
  linked_repr q xs ->
  exists q', collect (length xs) dequeue q = (Ok xs, q') /\ linked_repr q' [].
Proof.
  revert q. induction xs as [|x xs IH]; intros q Hrep.
  - by exists q.
  - destruct (linked_dequeue_spec q x xs Hrep) as (q1 & Hq1 & Hrep1).
    destruct (IH q1 Hrep1) as (q2 & Hq2 & Hrep2).
    exists q2. cbn [collect length]. unfold bind. by rewrite Hq1, Hq2.
Qed.

Lemma linked_fifo (es : list (option A)) :
  exists q', (call_each enqueue es ;; collect (length es) dequeue) __init__ = (Ok es, q').
Proof.
  destruct (linked_enqueue_all es __init__ []) as (q1 & Hq1 & Hrep1); [done|].
  destruct (linked_dequeue_all es q1 Hrep1) as (q2 & Hq2 & _).
  exists q2. unfold bind. by rewrite Hq1, Hq2.
Qed.

End LinkedQueueFacts.

(** ** CircularQueue *)

Section CircularQueueFacts.
Context {A : Type}.
Import CircularQueue.

(** C10. [rotate()] on a [CircularQueue] of size 0 returns without raising
    and leaves the queue as it was. *)
Theorem C10_rotate_empty (q : CircularQueue.t A) :
  _size q = 0 -> rotate q = (Ok tt, q).
Proof.
  intros Hsz. unfold rotate. mstep. case_decide; [lia|done].
Qed.

Lemma circular_empty_calls (q : CircularQueue.t A) :
  _size q = 0 -> dequeue q = (Raise Empty, q) /\ first q = (Raise Empty, q).
Proof.
  intros Hsz. unfold dequeue, first, is_empty. mstep.
  by rewrite bool_decide_eq_true_2.
Qed.

End CircularQueueFacts.

Lemma linked_empty_calls {A} (q : LinkedQueue.t A) :
  LinkedQueue._size q = 0 ->
  LinkedQueue.dequeue q = (Raise Empty, q) /\ LinkedQueue.first q = (Raise Empty, q).
Proof.
  intros Hsz. unfold LinkedQueue.dequeue, LinkedQueue.first, LinkedQueue.is_empty.
  mstep. by rewrite bool_decide_eq_true_2.
Qed.

Lemma queue_empty_calls {A} (q : ArrayQueue.t A) :
  ArrayQueue._size q = 0 ->
  ArrayQueue.dequeue q = (Raise Empty, q) /\ ArrayQueue.first q = (Raise Empty, q).
Proof.
  intros Hsz. unfold ArrayQueue.dequeue, ArrayQueue.first, ArrayQueue.is_empty.
  mstep. by rewrite bool_decide_eq_true_2.
Qed.

(** In the [ArrayQueue] the front index stays inside the storage. *)
Lemma queue_wf_preserved {A} (q : ArrayQueue.t A) (e : option A) :
  ArrayDeque.wf (as_deque q) ->
  ArrayDeque.wf (as_deque (snd (ArrayQueue.enqueue e q))) /\
  ArrayDeque.wf (as_deque (snd (ArrayQueue.dequeue q))) /\
  ArrayDeque.wf (as_deque (snd (ArrayQueue.first q))).
Proof.
  intros Hwf. split; [|split].
  - by destruct (queue_enqueue_spec e q Hwf) as (q' & -> & ? & _).
  - destruct (decide (ArrayQueue._size q = 0)) as [Hz|Hnz].
    + by rewrite (proj1 (queue_empty_calls q Hz)).
    + pose proof (ArrayDeque.wf_size _ Hwf) as Hs. cbn in Hs.
      by destruct (queue_dequeue_spec q Hwf ltac:(lia)) as (q' & -> & ? & _).
  - unfold ArrayQueue.first, ArrayQueue.is_empty. mstep.
    case_bool_decide; mstep; [done|]. by unfold lift.
Qed.

(** * The claims *)

(** C9. FIFO order: whatever elements are enqueued into a new [ArrayQueue] or
    a new [LinkedQueue], as many calls of [dequeue()] return them in the order
    of their insertion; the list is of any length, so the [ArrayQueue] resizes
    as often as it takes. *)
Theorem C9_fifo {A} (es : list (option A)) :
  (exists q', (call_each ArrayQueue.enqueue es ;;
               collect (length es) ArrayQueue.dequeue) ArrayQueue.__init__
              = (Ok es, q')) /\
  (exists q', (call_each LinkedQueue.enqueue es ;;
               collect (length es) LinkedQueue.dequeue) LinkedQueue.__init__
              = (Ok es, q')).
Proof. split; [apply queue_fifo|apply linked_fifo]. Qed.

(** C5. A call that fails by contract leaves the container as it was:
    [delete_first], [delete_last], [first], [last] on an empty [ArrayDeque],
    [remove] of a value held by no slot, index access out of range, with a
    slice or with a value that is not an integer, and [dequeue], [first] on
    an empty [ArrayQueue], [LinkedQueue] or [CircularQueue]. *)
Theorem C5_failed_call_keeps_state {A} `{EqDecision A}
    (o : ArrayDeque.op A) (d : ArrayDeque.t A)
    (aq : ArrayQueue.t A) (lq : LinkedQueue.t A) (cq : CircularQueue.t A) :
  ArrayDeque.fails_by_contract o d ->
  ArrayQueue._size aq = 0 -> LinkedQueue._size lq = 0 -> CircularQueue._size cq = 0 ->
  ArrayDeque.exec o d = (Raise (ArrayDeque.expected_exn o), d) /\
  (ArrayQueue.dequeue aq = (Raise Empty, aq) /\ ArrayQueue.first aq = (Raise Empty, aq)) /\
  (LinkedQueue.dequeue lq = (Raise Empty, lq) /\ LinkedQueue.first lq = (Raise Empty, lq)) /\
  (CircularQueue.dequeue cq = (Raise Empty, cq) /\
   CircularQueue.first cq = (Raise Empty, cq)).
Proof.
  intros Hd Haq Hlq Hcq.
  split; [by apply deque_failed_call|].
  split; [by apply queue_empty_calls|].
  split; [by apply linked_empty_calls|by apply circular_empty_calls].
Qed.

(** C1. [remove] on concrete deques.  On the deque [1], [remove(1)] returns
    without raising and changes nothing: the length and [count(1)] are still
    1.  On [1, 2, 3, 4, 5], [remove(3)] leaves [2, 4, 5], so that 1 is lost as
    well, and [remove(4)] leaves five slots, [1, 2, 3, 5, None], the length
    not being decreased. *)
Theorem C1_remove_on_examples :
  ArrayDeque.remove (Some 1) (deque_of None [1]) = (Ok tt, deque_of None [1]) /\
  ArrayDeque.count (Some 1) (deque_of None [1]) = (Ok 1, deque_of None [1]) /\
  ArrayDeque.__len__ (deque_of None [1]) = (Ok 1, deque_of None [1]) /\
  fst (ArrayDeque.remove (Some 3) (deque_of None [1; 2; 3; 4; 5])) = Ok tt /\
  ArrayDeque.elements (snd (ArrayDeque.remove (Some 3) (deque_of None [1; 2; 3; 4; 5])))
    = [Some 2; Some 4; Some 5] /\
  fst (ArrayDeque.remove (Some 4) (deque_of None [1; 2; 3; 4; 5])) = Ok tt /\
  ArrayDeque.elements (snd (ArrayDeque.remove (Some 4) (deque_of None [1; 2; 3; 4; 5])))
    = [Some 1; Some 2; Some 3; Some 5; None].
Proof. repeat split; vm_compute; reflexivity. Qed.

(** After one successful [add_last(1)] and one successful [clear()] on a
    new deque, insertions minus removals is 1 and [len] is 0. *)
Lemma C2_clear_resets_len :
  ArrayDeque.succeeds (ArrayDeque.AddLast (Some 1)) (@ArrayDeque.__init__ Z None) = true /\
  ArrayDeque.succeeds ArrayDeque.Clear (deque_of None [1]) = true /\
  ArrayDeque.balance [ArrayDeque.AddLast (Some 1); ArrayDeque.Clear]
    (ArrayDeque.__init__ None) = 1 /\
  fst (ArrayDeque.__len__
         (ArrayDeque.run [ArrayDeque.AddLast (Some 1); ArrayDeque.Clear]
            (ArrayDeque.__init__ None))) = Ok 0.
Proof. repeat split; vm_compute; reflexivity. Qed.

(** After one successful [add_last(1)] and one successful [remove(1)] on a
    new deque, insertions minus removals is 0 and [len] is 1. *)
Lemma len_after_remove :
  ArrayDeque.balance [ArrayDeque.AddLast (Some 1); ArrayDeque.Remove (Some 1)]
    (ArrayDeque.__init__ None) = 0 /\
  fst (ArrayDeque.__len__
         (ArrayDeque.run [ArrayDeque.AddLast (Some 1); ArrayDeque.Remove (Some 1)]
            (ArrayDeque.__init__ None))) = Ok 1.
Proof. split; vm_compute; reflexivity. Qed.

(** [remove] of a value that is present can fail in the middle of its
    shifting: on the deque 1, 2, 3, 4 whose front is the last slot,
    [remove(3)] raises [IndexError] and leaves 2, 2, 4 with the front index
    out of range. *)
Lemma remove_fails_midway :
  let d := ArrayDeque.run
             [ArrayDeque.AddFirst (Some 1); ArrayDeque.AddLast (Some 2);
              ArrayDeque.AddLast (Some 3); ArrayDeque.AddLast (Some 4)]
             (ArrayDeque.__init__ None) in
  ArrayDeque.elements d = [Some 1; Some 2; Some 3; Some 4] /\
  fst (ArrayDeque.remove (Some 3) d) = Raise IndexError /\
  ArrayDeque.elements (snd (ArrayDeque.remove (Some 3) d)) = [Some 2; Some 2; Some 4] /\
  ArrayDeque._front (snd (ArrayDeque.remove (Some 3) d)) = 10.
Proof. repeat split; vm_compute; reflexivity. Qed.

(** C4. After [add_first(1)], [add_last(2)], [remove(2)] on a new deque, all
    three successful, [_front] is 10, the capacity, and [first()] raises
    [IndexError]. *)
Theorem C4_front_after_remove :
  let ops := [ArrayDeque.AddFirst (Some 1); ArrayDeque.AddLast (Some 2);
              ArrayDeque.Remove (Some 2)] in
  let d := ArrayDeque.run ops (ArrayDeque.__init__ None) in
  ArrayDeque.balance ops (ArrayDeque.__init__ None) = 1 /\
  ArrayDeque._front d = 10 /\ ArrayDeque.capacity d = 10 /\
  ArrayDeque._size d = 1 /\
  fst (ArrayDeque.first d) = Raise IndexError.
Proof. repeat split; vm_compute; reflexivity. Qed.

(** A deque constructed with [maxlen = 3] has capacity 6 after four
    insertions. *)
Lemma C3_capacity_exceeds_maxlen :
  ArrayDeque._maxlen (deque_of (Some 3) [1; 2; 3; 4]) = Some 3 /\
  ArrayDeque.capacity (deque_of (Some 3) [1; 2; 3; 4]) = 6 /\
  ~ ArrayDeque.capacity (deque_of (Some 3) [1; 2; 3; 4]) <= 3.
Proof. repeat split; vm_compute; congruence. Qed.

(** On the full default deque [0 .. 9], [add_first(99)] triggers a resize and
    changes [deque[0]], and [add_last(99)] triggers one and changes
    [deque[-1]]; both indices are valid before and after. *)
Lemma C6_insertion_changes_index :
  let d := deque_of None [0; 1; 2; 3; 4; 5; 6; 7; 8; 9] in
  ArrayDeque._size d = ArrayDeque.capacity d /\
  ArrayDeque.capacity (snd (ArrayDeque.add_first (Some 99) d)) = 20 /\
  fst (ArrayDeque.__getitem__ (IdxInt 0) d) = Ok (Some 0) /\
  fst (ArrayDeque.__getitem__ (IdxInt 0) (snd (ArrayDeque.add_first (Some 99) d)))
    = Ok (Some 99) /\
  ArrayDeque.capacity (snd (ArrayDeque.add_last (Some 99) d)) = 20 /\
  fst (ArrayDeque.__getitem__ (IdxInt (-1)) d) = Ok (Some 9) /\
  fst (ArrayDeque.__getitem__ (IdxInt (-1)) (snd (ArrayDeque.add_last (Some 99) d)))
    = Ok (Some 99).
Proof. repeat split; vm_compute; reflexivity. Qed.

(** On a new, empty deque [rotate(1)] raises [Empty], so that [rotate(1)]
    followed by [rotate(-1)] does not return. *)
Lemma C8_rotate_empty_raises :
  (ArrayDeque.rotate 1 ;; ArrayDeque.rotate (- 1)) (@ArrayDeque.__init__ Z None)
    = (Raise Empty, ArrayDeque.__init__ None) /\
  ~ exists d', (ArrayDeque.rotate 1 ;; ArrayDeque.rotate (- 1))
                 (@ArrayDeque.__init__ Z None) = (Ok tt, d').
Proof.
  split; [vm_compute; reflexivity|]. intros [d' H]. vm_compute in H. discriminate H.
Qed.

(** ** Instances *)

Lemma wf_deque_of_123 : ArrayDeque.wf (deque_of (Some 3) [1; 2; 3]).
Proof. split; vm_compute; split; congruence. Defined.

Lemma C3_witness :
  1 <= 3 /\ ArrayDeque.wf (deque_of (Some 3) [1; 2; 3]) /\
  ArrayDeque._size (deque_of (Some 3) [1; 2; 3])
    = ArrayDeque.capacity (deque_of (Some 3) [1; 2; 3]) /\
  ArrayDeque.capacity (@ArrayDeque.__init__ Z (Some 3)) = Z.min 10 3 /\
  exists d', ArrayDeque.add_last (Some 4) (deque_of (Some 3) [1; 2; 3]) = (Ok tt, d') /\
    ArrayDeque.capacity d' = 2 * ArrayDeque.capacity (deque_of (Some 3) [1; 2; 3]).
Proof.
  assert (1 <= 3) as H1 by lia.
  assert (ArrayDeque._size (deque_of (Some 3) [1; 2; 3])
          = ArrayDeque.capacity (deque_of (Some 3) [1; 2; 3])) as H2 by reflexivity.
  pose proof (C3_is_full_capacity 3 [ArrayDeque.Clear] (deque_of (Some 3) [1; 2; 3])
                (Some 4) H1 wf_deque_of_123 H2) as (_ & Hinit & Hlast & _).
  split; [exact H1|]. split; [exact wf_deque_of_123|]. split; [exact H2|].
  split; [exact Hinit|exact Hlast].
Defined.

Lemma C5_witness :
  ArrayDeque.fails_by_contract (ArrayDeque.Remove (Some 7)) (deque_of None [1; 2; 3]) /\
  ArrayQueue._size (@ArrayQueue.__init__ Z) = 0 /\
  LinkedQueue._size (@LinkedQueue.__init__ Z) = 0 /\
  CircularQueue._size (@CircularQueue.__init__ Z) = 0 /\
  ArrayDeque.exec (ArrayDeque.Remove (Some 7)) (deque_of None [1; 2; 3])
    = (Raise ValueError, deque_of None [1; 2; 3]).
Proof.
  assert (ArrayDeque.fails_by_contract (ArrayDeque.Remove (Some 7))
            (deque_of None [1; 2; 3])) as H1.
  { split; [intros _; reflexivity|]. intros i Hi.
    change (ArrayDeque._size (deque_of None [1; 2; 3])) with 3 in Hi.
    assert (i = 0 \/ i = 1 \/ i = 2) as [->|[->| ->]] by lia; vm_compute; congruence. }
  split; [exact H1|]. split; [reflexivity|]. split; [reflexivity|]. split; [reflexivity|].
  exact (proj1 (C5_failed_call_keeps_state (ArrayDeque.Remove (Some 7))
                  (deque_of None [1; 2; 3]) ArrayQueue.__init__ LinkedQueue.__init__
                  CircularQueue.__init__ H1 eq_refl eq_refl eq_refl)).
Defined.

Lemma wf_deque_full : ArrayDeque.wf (deque_of None [0; 1; 2; 3; 4; 5; 6; 7; 8; 9]).
Proof. split; vm_compute; split; congruence. Defined.

Lemma C6_witness :
  ArrayDeque.wf (deque_of None [0; 1; 2; 3; 4; 5; 6; 7; 8; 9]) /\
  ArrayDeque._size (deque_of None [0; 1; 2; 3; 4; 5; 6; 7; 8; 9])
    = ArrayDeque.capacity (deque_of None [0; 1; 2; 3; 4; 5; 6; 7; 8; 9]) /\
  length (Some <$> [0; 1; 2; 3; 4; 5; 6; 7; 8; 9; 10]) = 11%nat /\
  ArrayDeque.capacity
    (snd (call_each ArrayDeque.add_last (Some <$> [0; 1; 2; 3; 4; 5; 6; 7; 8; 9; 10])
            (ArrayDeque.__init__ None))) = 20.
Proof.
  split; [exact wf_deque_full|]. split; [reflexivity|]. split; [reflexivity|].
  exact (proj1 (proj2 (proj2 (proj2 (proj2
    (C6_resize_transparent (deque_of None [0; 1; 2; 3; 4; 5; 6; 7; 8; 9]) (Some 10)
       (Some <$> [0; 1; 2; 3; 4; 5; 6; 7; 8; 9; 10]) wf_deque_full eq_refl eq_refl)))))).
Defined.

Lemma C7_witness :
  deque_of None [1; 2; 3]
    = ArrayDeque.run (map (fun x => ArrayDeque.AddLast (Some x)) [1; 2; 3])
        (ArrayDeque.__init__ None) /\
  - ArrayDeque._size (deque_of None [1; 2; 3]) <= -1
    <= ArrayDeque._size (deque_of None [1; 2; 3]) - 1 /\
  exists v, ArrayDeque.__getitem__ (IdxInt (-1)) (deque_of None [1; 2; 3])
            = (Ok v, deque_of None [1; 2; 3]).
Proof.
  assert (- ArrayDeque._size (deque_of None [1; 2; 3]) <= -1
          <= ArrayDeque._size (deque_of None [1; 2; 3]) - 1) as H2
    by (split; vm_compute; congruence).
  split; [reflexivity|]. split; [exact H2|].
  exact (proj1 (C7_getitem_range None
                  (map (fun x => ArrayDeque.AddLast (Some x)) [1; 2; 3]) (-1)
                  (deque_of None [1; 2; 3]) eq_refl) H2).
Defined.

Lemma wf_deque_of_three : ArrayDeque.wf (deque_of None [1; 2; 3]).
Proof. split; vm_compute; split; congruence. Defined.

Lemma C8_witness :
  ArrayDeque.wf (deque_of None [1; 2; 3]) /\
  0 < ArrayDeque._size (deque_of None [1; 2; 3]) /\
  exists d', (ArrayDeque.rotate 2 ;; ArrayDeque.rotate (- 2)) (deque_of None [1; 2; 3])
             = (Ok tt, d') /\
    ArrayDeque.elements d' = ArrayDeque.elements (deque_of None [1; 2; 3]) /\
    ArrayDeque._size d' = ArrayDeque._size (deque_of None [1; 2; 3]) /\
    ArrayDeque.wf d'.
Proof.
  split; [exact wf_deque_of_three|]. split; [reflexivity|].
  exact (C8_rotate_round_trip (deque_of None [1; 2; 3]) 2 wf_deque_of_three eq_refl).
Defined.

Lemma C10_witness :
  CircularQueue._size (@CircularQueue.__init__ Z) = 0 /\
  CircularQueue.rotate (@CircularQueue.__init__ Z) = (Ok tt, CircularQueue.__init__).
Proof.
  split; [reflexivity|]. exact (C10_rotate_empty CircularQueue.__init__ eq_refl).
Defined.

Lemma C2_witness :
  ArrayDeque.maxlen_valid None /\
  forallb (fun o => negb (ArrayDeque.calls_remove o))
    [ArrayDeque.AddLast (Some 1); ArrayDeque.AddFirst (Some 2); ArrayDeque.DeleteLast;
     ArrayDeque.Clear; ArrayDeque.AddLast (Some 3)] = true /\
  fst (ArrayDeque.__len__
         (ArrayDeque.run
            [ArrayDeque.AddLast (Some 1); ArrayDeque.AddFirst (Some 2);
             ArrayDeque.DeleteLast; ArrayDeque.Clear; ArrayDeque.AddLast (Some 3)]
            (ArrayDeque.__init__ None))) = Ok 1.
Proof.
  split; [exact I|]. split; [reflexivity|].
  exact (f_equal fst
           (C2_len_is_balance None
              [ArrayDeque.AddLast (Some 1); ArrayDeque.AddFirst (Some 2);
               ArrayDeque.DeleteLast; ArrayDeque.Clear; ArrayDeque.AddLast (Some 3)]
              I eq_refl)).
Defined.

(** * Further properties *)

(** ** Rotations in closed form *)

Lemma iter_rot_left {B} (l : list B) (k : nat) :
  (k <= length l)%nat -> Nat.iter k rot_left l = drop k l ++ take k l.
Proof.
  induction k as [|k IH]; intros Hk.
  - cbn. by rewrite drop_0, app_nil_r.
  - rewrite Nat.iter_succ, IH by lia.
    destruct (lookup_lt_is_Some_2 l k ltac:(lia)) as [x Hx].
    rewrite (drop_S _ _ _ Hx), (take_S_r _ _ _ Hx). cbn.
    by rewrite app_assoc.
Qed.

Lemma iter_rot_right {B} (l : list B) (k : nat) :
  (k <= length l)%nat ->
  Nat.iter k rot_right l = drop (length l - k) l ++ take (length l - k) l.
Proof.
  induction k as [|k IH]; intros Hk.
  - cbn. by rewrite Nat.sub_0_r, drop_all, firstn_all.
  - rewrite Nat.iter_succ, IH by lia.
    destruct (lookup_lt_is_Some_2 l (length l - S k) ltac:(lia)) as [x Hx].
    replace (length l - k)%nat with (S (length l - S k)) by lia.
    rewrite (take_S_r _ _ _ Hx), (drop_S _ _ _ Hx), app_assoc.
    by rewrite rot_right_snoc.
Qed.

(** ** ArrayDeque, method by method *)

Section ArrayDequeMethods.
Context {A : Type} `{EqDecision A}.
Import ArrayDeque.
Implicit Types (d : ArrayDeque.t A) (e v x : option A) (xs : list (option A)).

Ltac mod_cases := rewrite ?mod_wrap3 by lia; repeat case_decide; lia.

Lemma first_ok d :
  wf d -> 0 < _size d -> first d = (Ok (slot d 0), d).
Proof.
  intros [Hc Hf Hs] Hpos. unfold capacity in *. unfold first, is_empty. mstep.
  rewrite bool_decide_eq_false_2 by lia. mstep. unfold lift.
  rewrite py_getitem_ok by lia.
  unfold slot, capacity. by rewrite Z.add_0_r, (Z.mod_small (_front d)) by lia.
Qed.

Lemma last_ok d :
  wf d -> 0 < _size d -> last d = (Ok (slot d (_size d - 1)), d).
Proof.
  intros [Hc Hf Hs] Hpos. unfold capacity in *. unfold last, is_empty. mstep.
  rewrite bool_decide_eq_false_2 by lia. mstep.
  rewrite py_mod_ok by lia. mstep. unfold lift.
  rewrite <- Z.add_sub_assoc. by rewrite py_getitem_ok by (apply mod_range; lia).
Qed.

Lemma nonempty_size d : elements d <> [] -> 0 < _size d.
Proof.
  intros Hne. pose proof (length_elements d) as Hlen.
  destruct (elements d); [done|]. cbn in Hlen. lia.
Qed.

(** X1. [add_first] and [add_last] never raise on a deque that satisfies the
    invariant: the element becomes the first, respectively the last, of the
    contents, the others keep their order, and the capacity doubles exactly
    when the deque was full. *)
Theorem X1_add_at_both_ends d e :
  wf d ->
  (exists d', add_first e d = (Ok tt, d') /\ wf d' /\
     elements d' = e :: elements d /\ _maxlen d' = _maxlen d /\
     capacity d' = (if decide (_size d = capacity d) then 2 * capacity d else capacity d)) /\
  (exists d', add_last e d = (Ok tt, d') /\ wf d' /\
     elements d' = elements d ++ [e] /\ _maxlen d' = _maxlen d /\
     capacity d' = (if decide (_size d = capacity d) then 2 * capacity d else capacity d)).
Proof.
  intros Hwf. split.
  - destruct (add_first_spec d e Hwf) as (d' & ? & ? & ? & ? & ? & ?). by exists d'.
  - destruct (add_last_spec d e Hwf) as (d' & ? & ? & ? & ? & ? & ?). by exists d'.
Qed.

(** X2. On a deque that holds [x] followed by [xs], [first()] returns [x] and
    changes nothing, and [delete_first()] returns [x] and leaves [xs], in the
    same storage. *)
Theorem X2_front_of_deque d x xs :
  wf d -> elements d = x :: xs ->
  first d = (Ok x, d) /\
  exists d', delete_first d = (Ok x, d') /\ wf d' /\ elements d' = xs /\
    capacity d' = capacity d /\ _maxlen d' = _maxlen d.
Proof.
  intros Hwf Hel.
  assert (0 < _size d) as Hpos by (apply nonempty_size; by rewrite Hel).
  destruct (delete_first_spec d Hwf Hpos) as (d' & Hd' & Hwf' & Hel' & _ & Hm & Hc).
  rewrite Hel in Hel'. injection Hel' as Hx Hxs.
  rewrite first_ok by done. rewrite <- Hx in *. split; [done|]. by exists d'.
Qed.

(** X3. On a deque that holds [xs] followed by [x], [last()] returns [x] and
    changes nothing, and [delete_last()] returns [x] and leaves [xs], in the
    same storage and with the same front. *)
Theorem X3_back_of_deque d x xs :
  wf d -> elements d = xs ++ [x] ->
  last d = (Ok x, d) /\
  exists d', delete_last d = (Ok x, d') /\ wf d' /\ elements d' = xs /\
    capacity d' = capacity d /\ _front d' = _front d /\ _maxlen d' = _maxlen d.
Proof.
  intros Hwf Hel.
  assert (0 < _size d) as Hpos by (apply nonempty_size; rewrite Hel; by destruct xs).
  destruct (delete_last_spec d Hwf Hpos) as (d' & Hd' & Hwf' & Hel' & _ & Hm & Hc).
  rewrite Hel in Hel'. apply app_inj_tail in Hel' as [Hxs Hx].
  rewrite last_ok by done. rewrite <- Hx in *. split; [done|].
  exists d'. pose proof Hd' as Hst. rewrite delete_last_ok in Hst by done.
  injection Hst as _ Hst.
  split; [done|]. split; [done|]. split; [done|]. split; [done|]. split; [|done].
  by rewrite <- Hst.
Qed.

Lemma getitem_elements_lookup d (i : Z) x :
  __getitem__ (IdxInt i) d = (Ok x, d) -> - _size d <= i <= _size d - 1 ->
  elements d !! normal_index (_size d) i = Some x.
Proof.
  intros Hget Hi. unfold normal_index.
  destruct (decide (0 < capacity d)) as [Hc|Hc].
  - case_decide.
    + rewrite getitem_negative in Hget by (done || lia). injection Hget as <-.
      apply slot_lookup. lia.
    + rewrite getitem_nonneg in Hget by (done || lia). injection Hget as <-.
      apply slot_lookup. lia.
  - exfalso. revert Hget. unfold __getitem__, locate. mstep.
    pose proof (len_nonneg (_data d)). unfold capacity in Hc.
    assert (len (_data d) = 0) as -> by lia.
    case_decide; [lia|]. by case_decide.
Qed.

(** X4. Index access reads the contents in their logical order: for
    [-n <= i <= n-1] on a deque of size [n] with storage, [deque[i]] returns
    the element of position [i], counted from the back when [i] is negative,
    and changes nothing. *)
Theorem X4_getitem_reads_contents d (i : Z) :
  0 < capacity d -> - _size d <= i <= _size d - 1 ->
  exists x, elements d !! normal_index (_size d) i = Some x /\
    __getitem__ (IdxInt i) d = (Ok x, d).
Proof.
  intros Hc Hi. unfold normal_index. case_decide.
  - exists (slot d (_size d + i)). split; [apply slot_lookup; lia|].
    apply getitem_negative; [done|lia].
  - exists (slot d i). split; [apply slot_lookup; lia|].
    apply getitem_nonneg; [done|lia].
Qed.

Lemma setitem_ok d (i : Z) v :
  wf d -> - _size d <= i <= _size d - 1 ->
  __setitem__ (IdxInt i) v d =
    (Ok tt, set_data (<[Z.to_nat ((_front d + Z.of_nat (normal_index (_size d) i))
                                  mod capacity d):=v]> (_data d)) d).
Proof.
  intros [Hc Hf Hs] Hi. unfold capacity in *. unfold __setitem__, locate. mstep.
  case_decide; [lia|]. unfold normal_index. case_decide.
  - rewrite py_mod_ok by lia. mstep.
    rewrite py_setitem_ok by (apply mod_range; lia). mstep.
    rewrite Z2Nat.id, Z.add_assoc by lia. reflexivity.
  - rewrite py_mod_ok by lia. mstep.
    rewrite py_setitem_ok by (apply mod_range; lia). mstep.
    rewrite Z2Nat.id by lia. reflexivity.
Qed.

Lemma setitem_spec d (i : Z) v :
  wf d -> - _size d <= i <= _size d - 1 ->
  exists d', __setitem__ (IdxInt i) v d = (Ok tt, d') /\ wf d' /\
    elements d' = <[normal_index (_size d) i:=v]> (elements d) /\
    _size d' = _size d /\ capacity d' = capacity d /\ _front d' = _front d /\
    __getitem__ (IdxInt i) d' = (Ok v, d').
Proof.
  intros Hwf Hi. pose proof Hwf as [Hc Hf Hs].
  eexists. split; [by apply setitem_ok|].
  set (j := normal_index (_size d) i).
  assert (j < Z.to_nat (_size d))%nat as Hj by (unfold j, normal_index; case_decide; lia).
  destruct d as [data sz f mx]. unfold capacity in *. cbn in *.
  assert (0 <= (f + Z.of_nat j) mod len data < len data) by (apply mod_range; lia).
  assert (wf {| _data := <[Z.to_nat ((f + Z.of_nat j) mod len data):=v]> data;
                _size := sz; _front := f; _maxlen := mx |}) as Hwf'.
  { split; unfold capacity; cbn; rewrite len_insert; lia. }
  assert (elements {| _data := <[Z.to_nat ((f + Z.of_nat j) mod len data):=v]> data;
                      _size := sz; _front := f; _maxlen := mx |}
          = <[j:=v]> (elements {| _data := data; _size := sz; _front := f;
                                  _maxlen := mx |})) as Hel.
  { apply elements_intro.
    - by rewrite length_insert, length_elements.
    - intros k Hk. rewrite length_insert, length_elements in Hk. cbn in Hk.
      rewrite (slot_insert _ _ sz _ _ mx) by done.
      destruct (decide (k = j)) as [->|Hne].
      + rewrite list_lookup_insert_eq by (rewrite length_elements; done).
        by rewrite decide_True.
      + rewrite list_lookup_insert_ne by done.
        rewrite lookup_elements by done. case_decide as E; [|done].
        exfalso. revert E. mod_cases. }
  split; [done|]. split; [done|]. split; [done|]. split; [by rewrite len_insert|].
  split; [done|].
  destruct (getitem_range _ i ltac:(by destruct Hwf')) as (Hget & _).
  destruct (Hget Hi) as (x & Hx). clear Hget.
  pose proof (getitem_elements_lookup _ i x Hx Hi) as Hlk.
  cbn [_size] in Hlk. fold j in Hlk. rewrite Hel in Hlk.
  rewrite list_lookup_insert_eq in Hlk by (rewrite length_elements; done).
  injection Hlk as <-. exact Hx.
Qed.

(** X5. Index assignment: for [-n <= i <= n-1] on a deque that satisfies the
    invariant, [deque[i] = v] replaces the element of position [i], counted
    from the back when [i] is negative, and nothing else; [deque[i]] then
    returns [v]. *)
Theorem X5_setitem_replaces_one d (i : Z) v :
  wf d -> - _size d <= i <= _size d - 1 ->
  exists d', __setitem__ (IdxInt i) v d = (Ok tt, d') /\ wf d' /\
    elements d' = <[normal_index (_size d) i:=v]> (elements d) /\
    _size d' = _size d /\ capacity d' = capacity d /\ _front d' = _front d /\
    __getitem__ (IdxInt i) d' = (Ok v, d').
Proof. apply setitem_spec. Qed.

(** The counting loop of [count], started after [j] iterations. *)
Lemma count_loop d (value : option A) (m j : nat) (acc : Z) :
  0 < capacity d -> (j + m <= Z.to_nat (_size d))%nat ->
  for_fold (map (fun k => 0 + Z.of_nat k) (seq j m)) acc
    (fun i value_count =>
       self <- get ;;
       index <- lift (py_mod (_front self + i) (len (_data self))) ;;
       x <- lift (py_getitem (_data self) index) ;;
       ret (if decide (x = value) then value_count + 1 else value_count)) d
  = (Ok (acc + occurrences value (take m (drop j (elements d)))), d).
Proof.
  intros Hc. unfold capacity in Hc. revert j acc.
  induction m as [|m IH]; intros j acc Hj.
  - cbn [seq map for_fold]. change (take 0 (drop j (elements d))) with (@nil (option A)).
    unfold ret, occurrences, len. cbn. by rewrite Z.add_0_r.
  - cbn [seq map for_fold]. mstep. rewrite py_mod_ok by lia. mstep.
    rewrite py_getitem_ok by (apply mod_range; lia). mstep.
    rewrite IH by lia. do 2 f_equal.
    assert (elements d !! j = Some (slot d (Z.of_nat j))) as Hlk
      by (apply lookup_elements; lia).
    rewrite (drop_S _ _ _ Hlk), Z.add_0_l. cbn [take].
    change (default None (_data d !! Z.to_nat ((_front d + Z.of_nat j) mod len (_data d))))
      with (slot d (Z.of_nat j)).
    unfold occurrences. rewrite filter_cons.
    destruct (decide (slot d (Z.of_nat j) = value)); unfold len; cbn [length]; lia.
Qed.

Lemma count_ok d (value : option A) :
  0 < capacity d ->
  count value d = (Ok (occurrences value (elements d)), d).
Proof.
  intros Hc. unfold count. mstep. unfold range, range_up.
  rewrite Z.sub_0_r, (count_loop d value (Z.to_nat (_size d)) 0 0 Hc) by lia.
  rewrite drop_0, firstn_all2 by (rewrite length_elements; lia). done.
Qed.

(** X6. [count(value)] returns the number of elements of the contents that
    are equal to [value], and changes nothing. *)
Theorem X6_count_occurrences d (value : option A) :
  0 < capacity d ->
  count value d = (Ok (occurrences value (elements d)), d).
Proof. apply count_ok. Qed.

(** X7. [clear()] never raises and leaves the deque exactly as the
    constructor creates it for the same [maxlen]: no elements, front 0, new
    storage of the initial capacity. *)
Theorem X7_clear_is_new d :
  clear d = (Ok tt, __init__ (_maxlen d)) /\
  elements (@__init__ A (_maxlen d)) = [] /\
  is_empty (@__init__ A (_maxlen d)) = (Ok true, __init__ (_maxlen d)).
Proof. by destruct d. Qed.

(** X8. [rotate] on a deque that holds elements and satisfies the invariant:
    for [0 <= k <= n], [rotate(k)] moves the last [k] elements to the front and
    [rotate(-k)] the first [k] elements to the back, the order being kept
    otherwise; a rotation by the size, in either direction, gives the same
    contents. *)
Theorem X8_rotate_moves_block d (k : Z) :
  wf d -> 0 < _size d -> 0 <= k <= _size d ->
  (exists d', rotate k d = (Ok tt, d') /\ wf d' /\ _size d' = _size d /\
     elements d' = drop (Z.to_nat (_size d - k)) (elements d)
                   ++ take (Z.to_nat (_size d - k)) (elements d)) /\
  (exists d', rotate (- k) d = (Ok tt, d') /\ wf d' /\ _size d' = _size d /\
     elements d' = drop (Z.to_nat k) (elements d) ++ take (Z.to_nat k) (elements d)) /\
  (exists d', rotate (_size d) d = (Ok tt, d') /\ elements d' = elements d) /\
  (exists d', rotate (- _size d) d = (Ok tt, d') /\ elements d' = elements d).
Proof.
  intros Hwf Hpos Hk.
  assert (forall j, 0 <= j <= _size d ->
    exists d', rotate j d = (Ok tt, d') /\ wf d' /\ _size d' = _size d /\
      elements d' = drop (Z.to_nat (_size d - j)) (elements d)
                    ++ take (Z.to_nat (_size d - j)) (elements d)) as Hright.
  { intros j Hj.
    destruct (rotate_right_ok d j Hwf Hpos ltac:(lia)) as (d' & Hd' & Hwf' & Hsz & Hel).
    exists d'. split; [done|]. split; [done|]. split; [done|].
    rewrite Hel, iter_rot_right by (rewrite length_elements; lia).
    rewrite length_elements. by replace (Z.to_nat (_size d) - Z.to_nat j)%nat
      with (Z.to_nat (_size d - j)) by lia. }
  assert (forall j, 0 <= j <= _size d ->
    exists d', rotate (- j) d = (Ok tt, d') /\ wf d' /\ _size d' = _size d /\
      elements d' = drop (Z.to_nat j) (elements d) ++ take (Z.to_nat j) (elements d))
    as Hleft.
  { intros j Hj. destruct (decide (j = 0)) as [->|Hj0].
    - destruct (Hright 0 ltac:(lia)) as (d' & Hd' & Hwf' & Hsz & Hel).
      exists d'. change (- 0) with 0. split; [done|]. split; [done|]. split; [done|].
      rewrite Hel, Z.sub_0_r. change (Z.to_nat 0) with 0%nat.
      rewrite drop_0. cbn [take app].
      rewrite drop_ge, firstn_all2 by (rewrite length_elements; lia).
      by rewrite app_nil_r.
    - destruct (rotate_left_ok d (- j) Hwf Hpos ltac:(lia)) as (d' & Hd' & Hwf' & Hsz & Hel).
      exists d'. split; [done|]. split; [done|]. split; [done|].
      rewrite Hel, Z.opp_involutive. apply iter_rot_left. rewrite length_elements. lia. }
  split; [by apply Hright|]. split; [by apply Hleft|]. split.
  - destruct (Hright (_size d) ltac:(lia)) as (d' & Hd' & _ & _ & Hel).
    exists d'. split; [done|]. rewrite Hel, Z.sub_diag. change (Z.to_nat 0) with 0%nat.
    rewrite drop_0. cbn [take]. by rewrite app_nil_r.
  - destruct (Hleft (_size d) ltac:(lia)) as (d' & Hd' & _ & _ & Hel).
    exists d'. split; [done|]. rewrite Hel.
    rewrite drop_ge, firstn_all2 by (rewrite length_elements; lia). done.
Qed.

Lemma rotate_empty d (k : Z) :
  _size d = 0 ->
  rotate k d = (if decide (k = 0) then Ok tt else Raise Empty, d).
Proof.
  intros Hz. unfold rotate.
  assert (forall j, 0 < j -> range j = 0 :: range_up 1 j) as Hrange.
  { intros j Hj. unfold range, range_up.
    replace (Z.to_nat (j - 0)) with (S (Z.to_nat (j - 1))) by lia.
    cbn [seq map]. f_equal. rewrite <- seq_shift, map_map.
    apply map_ext. intros a. lia. }
  destruct (decide (k = 0)) as [->|Hk]; [done|].
  case_decide.
  - rewrite Hrange by lia. cbn [for_each]. unfold delete_last, is_empty. mstep.
    by rewrite bool_decide_eq_true_2.
  - rewrite Hrange by lia. cbn [for_each]. unfold delete_first, is_empty. mstep.
    by rewrite bool_decide_eq_true_2.
Qed.

(** X9. [rotate] on an empty deque: [rotate(0)] returns, and every other
    [rotate(k)] raises [Empty]; the deque is left as it was. *)
Theorem X9_rotate_empty_raises d (k : Z) :
  _size d = 0 ->
  rotate k d = (if decide (k = 0) then Ok tt else Raise Empty, d).
Proof. apply rotate_empty. Qed.

(** X10. The invariant of the circular buffer: on a deque constructed
    without [maxlen] or with one that is not negative, after every sequence of
    calls of the methods other than [remove], failed calls included, the
    storage is not empty, [0 <= front < capacity] and [0 <= size <= capacity];
    [_maxlen] is what the constructor was given. *)
Theorem X10_invariant_without_remove (maxlen : option Z) (ops : list (op A)) :
  maxlen_valid maxlen -> forallb (fun o => negb (calls_remove o)) ops = true ->
  0 < capacity (run ops (__init__ maxlen)) /\
  0 <= _front (run ops (__init__ maxlen)) < capacity (run ops (__init__ maxlen)) /\
  0 <= _size (run ops (__init__ maxlen)) <= capacity (run ops (__init__ maxlen)) /\
  _maxlen (run ops (__init__ maxlen)) = maxlen.
Proof.
  intros Hm Hops. destruct (run_wf maxlen ops Hm Hops) as [? ? ?].
  by rewrite run_keeps_maxlen.
Qed.

End ArrayDequeMethods.

(** ** The queues as lists *)

Lemma trace_refines {S T O B} (R : S -> T -> Prop)
    (impl : O -> M S B) (model : O -> M T B) :
  (forall o s t, R s t ->
     fst (impl o s) = fst (model o t) /\ R (snd (impl o s)) (snd (model o t))) ->
  forall ops s t, R s t ->
    trace impl ops s = trace model ops t /\
    R (final impl ops s) (final model ops t).
Proof.
  intros Hstep ops. induction ops as [|o ops IH]; intros s t HR; [done|].
  destruct (Hstep o s t HR) as [Hfst Hsnd]. cbn [trace final].
  destruct (IH _ _ Hsnd) as [-> ?]. by rewrite Hfst.
Qed.

Lemma snd_bind_ret_any {S B C} (m : M S B) (f : B -> C) (s : S) :
  snd ((x <- m ;; ret (f x)) s) = snd (m s).
Proof. unfold bind. by destruct (m s) as [[a|e] s']. Qed.

Lemma final_preserves {S O B} (P : S -> Prop) (call : O -> M S B) :
  (forall o s, P s -> P (snd (call o s))) ->
  forall ops s, P s -> P (final call ops s).
Proof.
  intros Hstep ops. induction ops as [|o ops IH]; intros s Hs; [done|].
  cbn [final]. apply IH. by apply Hstep.
Qed.

Section ArrayQueueAsList.
Context {A : Type}.
Implicit Types (q : ArrayQueue.t A) (e x : option A) (xs : list (option A)).

Lemma queue_first_ok q :
  ArrayDeque.wf (as_deque q) -> 0 < ArrayQueue._size q ->
  ArrayQueue.first q = (Ok (ArrayDeque.slot (as_deque q) 0), q).
Proof.
  intros [Hc Hf Hs] Hpos. unfold ArrayDeque.capacity in *. cbn in *.
  unfold ArrayQueue.first, ArrayQueue.is_empty. mstep.
  rewrite bool_decide_eq_false_2 by lia. mstep. unfold lift.
  rewrite py_getitem_ok by lia.
  unfold ArrayDeque.slot, ArrayDeque.capacity. cbn.
  by rewrite Z.add_0_r, (Z.mod_small (ArrayQueue._front q)) by lia.
Qed.

Lemma array_queue_step (o : qop A) q xs :
  ArrayDeque.wf (as_deque q) /\ ArrayDeque.elements (as_deque q) = xs ->
  fst (array_queue_call o q) = fst (ListQueue.call o xs) /\
  (ArrayDeque.wf (as_deque (snd (array_queue_call o q))) /\
   ArrayDeque.elements (as_deque (snd (array_queue_call o q)))
   = snd (ListQueue.call o xs)).
Proof.
  intros [Hwf Hel].
  assert (ArrayQueue._size q = len xs) as Hlen.
  { pose proof (length_elements (as_deque q)) as H.
    pose proof (ArrayDeque.wf_size _ Hwf) as Hs. rewrite Hel in H. cbn in *.
    unfold len. lia. }
  destruct o as [e| | | |]; unfold array_queue_call, queue_call, ListQueue.call.
  - destruct (queue_enqueue_spec e q Hwf) as (q' & Hq' & Hwf' & Hel').
    unfold bind. rewrite Hq'. unfold bind, modify, get, put, ret, raise. cbn [fst snd]. by rewrite Hel', Hel.
  - destruct xs as [|x xs].
    + unfold bind. rewrite (proj1 (queue_empty_calls q Hlen)). done.
    + destruct (queue_dequeue_spec q Hwf) as (q' & Hq' & Hwf' & Hel').
      { rewrite Hlen. unfold len. cbn. lia. }
      rewrite Hel in Hel'. injection Hel' as Hx Hxs.
      unfold bind. rewrite Hq'. unfold bind, modify, get, put, ret, raise. cbn [fst snd]. by rewrite <- Hx, Hxs.
  - destruct xs as [|x xs].
    + unfold bind. rewrite (proj2 (queue_empty_calls q Hlen)). done.
    + assert (0 < ArrayQueue._size q) as Hpos by (rewrite Hlen; unfold len; cbn; lia).
      pose proof (lookup_elements (as_deque q) 0 ltac:(cbn; lia)) as Hlk.
      rewrite Hel in Hlk. change (Z.of_nat 0) with 0 in Hlk. injection Hlk as Hx.
      unfold bind. rewrite queue_first_ok by done.
      unfold get, ret. cbn [fst snd]. by rewrite <- Hx.
  - unfold ArrayQueue.__len__. mstep. unfold ret. cbn. by rewrite Hlen.
  - unfold ArrayQueue.is_empty. mstep. unfold ret. cbn. by rewrite Hlen.
Qed.

(** X11. The [ArrayQueue] is a first-in first-out queue: any sequence of
    calls of [enqueue], [dequeue], [first], [len] and [is_empty] on a new
    queue, in any order, returns and raises what the same calls do on a list
    to which [enqueue] appends and from whose front [dequeue] takes, resizes
    included; [dequeue] and [first] raise [Empty] exactly when the list is
    empty. *)
Theorem X11_array_queue_is_fifo (ops : list (qop A)) :
  trace array_queue_call ops ArrayQueue.__init__ = trace ListQueue.call ops [].
Proof.
  apply (trace_refines
           (fun q xs => ArrayDeque.wf (as_deque q) /\
                        ArrayDeque.elements (as_deque q) = xs)).
  - intros o s t. apply array_queue_step.
  - split; [apply queue_init_wf|done].
Qed.

Lemma queue_call_capacity (o : qop A) q :
  ArrayDeque.wf (as_deque q) ->
  ArrayDeque.wf (as_deque (snd (array_queue_call o q))) /\
  len (ArrayQueue._data (snd (array_queue_call o q)))
  = match o with
    | Enqueue _ =>
        if decide (ArrayQueue._size q = len (ArrayQueue._data q))
        then 2 * len (ArrayQueue._data q) else len (ArrayQueue._data q)
    | _ => len (ArrayQueue._data q)
    end.
Proof.
  intros Hwf. pose proof (ArrayDeque.wf_size _ Hwf) as Hs. cbn in Hs.
  destruct o as [e| | | |]; unfold array_queue_call, queue_call; rewrite snd_bind_ret_any.
  - destruct (add_last_spec (as_deque q) e Hwf) as (d' & Hd' & Hwf' & _ & _ & _ & Hcap).
    destruct (sim_result _ _ _ _ _ _ (enqueue_sim e q) Hd') as (q' & -> & <-).
    split; [done|]. exact Hcap.
  - destruct (decide (ArrayQueue._size q = 0)) as [Hz|Hnz].
    + by rewrite (proj1 (queue_empty_calls q Hz)).
    + destruct (delete_first_spec (as_deque q) Hwf ltac:(cbn; lia))
        as (d' & Hd' & Hwf' & _ & _ & _ & Hcap).
      destruct (sim_result _ _ _ _ _ _ (dequeue_sim q) Hd') as (q' & -> & <-).
      split; [done|]. exact Hcap.
  - replace (snd (ArrayQueue.first q)) with q; [done|].
    symmetry. apply (stable_id ArrayQueue.first).
    unfold ArrayQueue.first, ArrayQueue.is_empty. solve_stable.
  - done.
  - done.
Qed.

(** X12. The [ArrayQueue] keeps its indices inside the storage: after every
    sequence of calls on a new queue, failed ones included,
    [0 <= front < capacity] and [0 <= size <= capacity], and the capacity is
    10 doubled some number of times. *)
Theorem X12_array_queue_invariant (ops : list (qop A)) :
  0 <= ArrayQueue._front (final array_queue_call ops ArrayQueue.__init__)
    < len (ArrayQueue._data (final array_queue_call ops ArrayQueue.__init__)) /\
  0 <= ArrayQueue._size (final array_queue_call ops ArrayQueue.__init__)
    <= len (ArrayQueue._data (final array_queue_call ops ArrayQueue.__init__)) /\
  exists k : nat,
    len (ArrayQueue._data (final array_queue_call ops ArrayQueue.__init__))
    = 10 * 2 ^ Z.of_nat k.
Proof.
  assert (ArrayDeque.wf (as_deque (final array_queue_call ops ArrayQueue.__init__)) /\
          exists k : nat,
            len (ArrayQueue._data (final array_queue_call ops ArrayQueue.__init__))
            = 10 * 2 ^ Z.of_nat k) as [[_ Hf Hs] Hk].
  { apply (final_preserves
             (fun q : ArrayQueue.t A => ArrayDeque.wf (as_deque q) /\
                exists k : nat, len (ArrayQueue._data q) = 10 * 2 ^ Z.of_nat k)).
    - intros o s [Hwf [k Hk]]. destruct (queue_call_capacity o s Hwf) as [Hwf' Hcap].
      split; [done|]. rewrite Hcap.
      destruct o; try by exists k. case_decide; [|by exists k].
      exists (S k). rewrite Hk, Nat2Z.inj_succ, Z.pow_succ_r by lia. lia.
    - split; [apply queue_init_wf|]. by exists 0%nat. }
  done.
Qed.

(** X13. The capacity of an [ArrayQueue] that satisfies the invariant
    changes in one case only: [enqueue] on a full queue doubles it.  No call
    shrinks the storage. *)
Theorem X13_array_queue_growth (o : qop A) q :
  ArrayDeque.wf (as_deque q) ->
  len (ArrayQueue._data (snd (array_queue_call o q)))
  = match o with
    | Enqueue _ =>
        if decide (ArrayQueue._size q = len (ArrayQueue._data q))
        then 2 * len (ArrayQueue._data q) else len (ArrayQueue._data q)
    | _ => len (ArrayQueue._data q)
    end.
Proof. intros Hwf. by destruct (queue_call_capacity o q Hwf). Qed.


End ArrayQueueAsList.

Section LinkedQueueAsList.
Context {A : Type}.
Import LinkedQueue.
Implicit Types (q : LinkedQueue.t A) (e x : option A) (xs : list (option A)).

Lemma linked_first_ok q x xs :
  linked_repr q (x :: xs) -> first q = (Ok x, q).
Proof.
  intros Hrep. destruct q as [h hd tl sz].
  apply linked_repr_nonempty in Hrep as (Hsz & t & Htl & Hseg & Ht); [|done].
  cbn in Hsz, Htl, Hseg, Ht.
  unfold first, is_empty. mstep.
  rewrite bool_decide_eq_false_2 by lia. mstep.
  destruct xs as [|y ys].
  - cbn in Hseg, Ht. subst hd. unfold deref. rewrite Ht. by mstep.
  - change (removelast (x :: y :: ys)) with (x :: removelast (y :: ys)) in Hseg.
    destruct Hseg as (l0 & nx & -> & Hl0 & _).
    unfold deref. rewrite Hl0. by mstep.
Qed.

Lemma linked_queue_step (o : qop A) q xs :
  linked_repr q xs ->
  fst (linked_queue_call o q) = fst (ListQueue.call o xs) /\
  linked_repr (snd (linked_queue_call o q)) (snd (ListQueue.call o xs)).
Proof.
  intros Hrep. pose proof (proj1 Hrep) as Hsz.
  destruct o as [e| | | |]; unfold linked_queue_call, queue_call, ListQueue.call.
  - destruct (linked_enqueue_spec q xs e Hrep) as (q' & Hq' & Hrep').
    unfold bind. rewrite Hq'. done.
  - destruct xs as [|x xs].
    + unfold bind. rewrite (proj1 (linked_empty_calls q Hsz)). done.
    + destruct (linked_dequeue_spec q x xs Hrep) as (q' & Hq' & Hrep').
      unfold bind. rewrite Hq'. done.
  - destruct xs as [|x xs].
    + unfold bind. rewrite (proj2 (linked_empty_calls q Hsz)). done.
    + unfold bind. rewrite (linked_first_ok q x xs Hrep). done.
  - unfold __len__. mstep. unfold ret. cbn [fst snd]. by rewrite Hsz.
  - unfold is_empty. mstep. unfold ret. cbn [fst snd]. by rewrite Hsz.
Qed.

(** X15. The [LinkedQueue] is a first-in first-out queue: any sequence of
    calls of [enqueue], [dequeue], [first], [len] and [is_empty] on a new
    queue, in any order, returns and raises what the same calls do on a list
    to which [enqueue] appends and from whose front [dequeue] takes;
    [dequeue] and [first] raise [Empty] exactly when the list is empty, and no
    call raises anything else. *)
Theorem X15_linked_queue_is_fifo (ops : list (qop A)) :
  trace linked_queue_call ops LinkedQueue.__init__ = trace ListQueue.call ops [].
Proof.
  apply (trace_refines linked_repr).
  - intros o s t. apply linked_queue_step.
  - done.
Qed.

End LinkedQueueAsList.

Section CircularQueueAsList.
Context {A : Type}.
Import CircularQueue.
Implicit Types (q : CircularQueue.t A) (h : store A) (e x : option A)
  (xs : list (option A)) (ls : list loc) (p r : option loc).

Lemma chain_length h ls xs p r : chain h ls xs p r -> length ls = length xs.
Proof.
  revert xs p. induction ls as [|l ls IH]; intros [|x xs] p; cbn; try done.
  intros (_ & nx & _ & Hrest). f_equal. by eapply IH.
Qed.

Lemma chain_allocated h ls xs p r (l : loc) :
  chain h ls xs p r -> l ∈ ls -> is_Some (h !! l).
Proof.
  revert xs p. induction ls as [|l0 ls IH]; intros [|x xs] p; cbn; try done.
  - by intros _ ?%elem_of_nil.
  - intros (_ & nx & Hl0 & Hrest) [->|Hin]%elem_of_cons; [by eexists|].
    by eapply IH.
Qed.

Lemma chain_update_other h ls xs p r (t : loc) (n : node A) :
  t ∉ ls -> chain h ls xs p r -> chain (<[t:=n]> h) ls xs p r.
Proof.
  revert xs p. induction ls as [|l0 ls IH]; intros [|x xs] p; cbn; try done.
  intros Hnot (-> & nx & Hl0 & Hrest). apply not_elem_of_cons in Hnot as [Hne Hnot].
  split; [done|]. exists nx. split; [by rewrite lookup_insert_ne|by apply IH].
Qed.

Lemma chain_snoc h ls xs p (t : loc) x r :
  chain h ls xs p (Some t) -> h !! t = Some (Node x r) ->
  chain h (ls ++ [t]) (xs ++ [x]) p r.
Proof.
  revert xs p. induction ls as [|l0 ls IH]; intros [|y xs] p; cbn; try done.
  - intros -> Ht. split; [done|]. by exists r.
  - intros (-> & nx & Hl0 & Hrest) Ht. split; [done|]. exists nx.
    split; [done|]. by apply IH.
Qed.

Lemma chain_snoc_inv h ls xs' p (t : loc) r :
  chain h (ls ++ [t]) xs' p r ->
  exists xs x, xs' = xs ++ [x] /\ chain h ls xs p (Some t) /\
    h !! t = Some (Node x r).
Proof.
  revert xs' p. induction ls as [|l0 ls IH]; intros [|y xs'] p; cbn; try done.
  - intros (-> & nx & Ht & Hrest). destruct xs'; [|done]. cbn in Hrest. subst nx.
    by exists [], y.
  - intros (-> & nx & Hl0 & Hrest).
    destruct (IH _ _ Hrest) as (xs & x & -> & Hch & Ht).
    exists (y :: xs), x. split; [done|]. split; [|done].
    cbn. split; [done|]. by exists nx.
Qed.

Lemma chain_start h (l : loc) ls xs p r :
  chain h (l :: ls) xs p r -> p = Some l.
Proof. destruct xs; cbn; [done|]. by intros [-> _]. Qed.

Lemma circular_repr_nonempty q xs :
  xs <> [] -> circular_repr q xs ->
  exists ls hd, _size q = Z.of_nat (length xs) /\ NoDup ls /\ head ls = Some hd /\
    _tail q = last ls /\ chain (heap q) ls xs (Some hd) (Some hd).
Proof.
  intros Hne [Hsz Hring]. destruct (Hring Hne) as (ls & hd & ? & ? & ? & ?).
  by exists ls, hd.
Qed.

(** The ring, opened at its last node. *)
Lemma circular_repr_open q xs :
  xs <> [] -> circular_repr q xs ->
  exists ls (t hd : loc) ys y,
    xs = ys ++ [y] /\ _size q = Z.of_nat (length xs) /\ NoDup (ls ++ [t]) /\
    head (ls ++ [t]) = Some hd /\ _tail q = Some t /\
    chain (heap q) ls ys (Some hd) (Some t) /\
    heap q !! t = Some (Node y (Some hd)).
Proof.
  intros Hne Hrep.
  destruct (circular_repr_nonempty q xs Hne Hrep) as (ls & hd & Hsz & Hnd & Hhd & Htl & Hch).
  destruct ls as [|l0 ls] using rev_ind; [done|]. clear IHls.
  rewrite last_snoc in Htl.
  destruct (chain_snoc_inv _ _ _ _ _ _ Hch) as (ys & y & -> & Hch' & Ht).
  by exists ls, l0, hd, ys, y.
Qed.

Lemma circular_first_ok q x xs :
  circular_repr q (x :: xs) -> first q = (Ok x, q).
Proof.
  intros Hrep.
  destruct (circular_repr_open q (x :: xs) ltac:(done) Hrep)
    as (ls & t & hd & ys & y & Hxs & Hsz & Hnd & Hhd & Htl & Hch & Ht).
  unfold first, is_empty. mstep.
  rewrite bool_decide_eq_false_2 by (cbn in Hsz; lia). mstep.
  rewrite Htl. unfold deref at 1. rewrite Ht. mstep.
  destruct ls as [|l0 ls].
  - destruct ys; [|done]. cbn in Hch, Hhd. injection Hxs as -> _.
    injection Hhd as <-. unfold deref. rewrite Ht. by mstep.
  - destruct ys as [|y0 ys]; [done|]. cbn in Hhd. injection Hhd as <-.
    destruct Hch as (_ & nx & Hl0 & _). injection Hxs as -> _.
    unfold deref. rewrite Hl0. by mstep.
Qed.

Lemma circular_enqueue_spec q xs e :
  circular_repr q xs ->
  exists q', enqueue e q = (Ok tt, q') /\ circular_repr q' (xs ++ [e]).
Proof.
  intros Hrep.
  pose proof (alloc_fresh (heap q) (Node e None)) as Hfresh.
  unfold enqueue, new_node, is_empty. mstep.
  unfold alloc in *. cbn [fst] in Hfresh. cbn zeta. mstep.
  set (l := fresh (dom (heap q))) in *.
  destruct (decide (xs = [])) as [->|Hne].
  - destruct Hrep as [Hsz _]. cbn in Hsz.
    rewrite bool_decide_eq_true_2 by done.
    unfold set_next. mstep. unfold deref. rewrite lookup_insert_eq. mstep.
    eexists. split; [reflexivity|]. split; [cbn; lia|]. intros _.
    exists [l], l. cbn. split; [apply NoDup_singleton|]. do 3 (split; [done|]).
    eexists. by rewrite lookup_insert_eq.
  - destruct (circular_repr_open q xs Hne Hrep)
      as (ls & t & hd & ys & y & -> & Hsz & Hnd & Hhd & Htl & Hch & Ht).
    rewrite length_app in Hsz. cbn in Hsz.
    rewrite bool_decide_eq_false_2 by lia. mstep.
    assert (t <> l) as Htl' by (intros ->; congruence).
    rewrite Htl. unfold deref at 1. rewrite lookup_insert_ne, Ht by done. mstep.
    unfold set_next at 1. mstep. unfold deref at 1. rewrite lookup_insert_eq. mstep.
    unfold set_next. mstep. unfold deref. rewrite Htl.
    rewrite lookup_insert_ne, lookup_insert_ne, Ht by done. mstep.
    eexists. split; [reflexivity|]. split.
    { cbn. rewrite !length_app. cbn. lia. }
    intros _. exists ((ls ++ [t]) ++ [l]), hd.
    assert (l ∉ ls ++ [t]) as Hnotin.
    { intros Hin. apply elem_of_app in Hin as [Hin|Hin%list_elem_of_singleton]; [|done].
      destruct (chain_allocated _ _ _ _ _ _ Hch Hin) as [? ?]. congruence. }
    apply NoDup_app in Hnd as Hnd'. destruct Hnd' as (_ & Ht_notin & _).
    assert (t ∉ ls) as Htls.
    { intros Hin. apply (Ht_notin t Hin). by apply list_elem_of_singleton. }
    split.
    { apply NoDup_app. split; [done|]. split; [|apply NoDup_singleton].
      intros z Hz ->%list_elem_of_singleton. done. }
    split.
    { destruct ls; cbn in *; done. }
    split; [cbn; by rewrite last_snoc|]. cbn.
    apply chain_snoc.
    + apply chain_snoc.
      * apply chain_update_other; [done|].
        apply chain_update_other.
        { intros Hin. apply Hnotin. apply elem_of_app. by left. }
        apply chain_update_other; [|done].
        intros Hin. apply Hnotin. apply elem_of_app. by left.
      * by rewrite lookup_insert_eq.
    + rewrite lookup_insert_ne by done. by rewrite lookup_insert_eq.
Qed.

Lemma chain_next_head h ls xs p (t : loc) :
  chain h ls xs p (Some t) -> exists hd, p = Some hd /\ head (ls ++ [t]) = Some hd.
Proof.
  destruct ls as [|l0 ls], xs as [|x xs]; cbn; try done.
  - intros ->. by exists t.
  - intros [-> _]. by exists l0.
Qed.

Lemma circular_dequeue_spec q x xs :
  circular_repr q (x :: xs) ->
  exists q', dequeue q = (Ok x, q') /\ circular_repr q' xs.
Proof.
  intros Hrep.
  destruct (circular_repr_open q (x :: xs) ltac:(done) Hrep)
    as (ls & t & hd & ys & y & Hxs & Hsz & Hnd & Hhd & Htl & Hch & Ht).
  cbn [length] in Hsz.
  unfold dequeue, is_empty. mstep.
  rewrite bool_decide_eq_false_2 by lia. mstep.
  rewrite Htl. unfold deref at 1. rewrite Ht. mstep.
  destruct ls as [|l0 ls].
  - destruct ys; [|done]. cbn in Hhd. injection Hhd as <-.
    injection Hxs as -> ->. cbn in Hsz.
    rewrite decide_True by lia. mstep. unfold deref. rewrite Ht. mstep.
    eexists. split; [reflexivity|]. split; [cbn; lia|done].
  - destruct ys as [|y0 ys]; [done|]. cbn in Hhd. injection Hhd as <-.
    destruct Hch as (_ & nx & Hl0 & Hch). injection Hxs as -> ->.
    rewrite length_app in Hsz. cbn in Hsz.
    rewrite decide_False by lia. mstep.
    unfold deref at 1. rewrite Hl0. mstep.
    unfold set_next. mstep. unfold deref at 1. rewrite Ht. mstep.
    change ((l0 :: ls) ++ [t]) with (l0 :: (ls ++ [t])) in Hnd.
    apply NoDup_cons in Hnd as [Hl0_notin Hnd].
    assert (l0 <> t) as Hne.
    { intros ->. apply Hl0_notin. apply elem_of_app. right. by apply list_elem_of_singleton. }
    unfold deref. rewrite lookup_insert_ne, Hl0 by done. mstep.
    eexists. split; [reflexivity|]. split.
    { cbn. rewrite length_app. cbn. lia. }
    intros _. destruct (chain_next_head _ _ _ _ _ Hch) as (hd' & -> & Hhd').
    exists (ls ++ [t]), hd'. split; [done|]. split; [done|].
    split; [cbn; by rewrite last_snoc|]. cbn.
    apply NoDup_app in Hnd as (_ & Ht_notin & _).
    apply chain_snoc.
    + apply chain_update_other; [|done].
      intros Hin. apply (Ht_notin t Hin). by apply list_elem_of_singleton.
    + by rewrite lookup_insert_eq.
Qed.

Lemma circular_rotate_spec q xs :
  circular_repr q xs ->
  exists q', rotate q = (Ok tt, q') /\ circular_repr q' (rot_left xs).
Proof.
  intros Hrep. destruct xs as [|x xs].
  - exists q. split; [|done]. destruct Hrep as [Hsz _]. cbn in Hsz.
    unfold rotate. mstep. by rewrite decide_False by lia.
  - destruct (circular_repr_open q (x :: xs) ltac:(done) Hrep)
      as (ls & t & hd & ys & y & Hxs & Hsz & Hnd & Hhd & Htl & Hch & Ht).
    cbn [length] in Hsz.
    unfold rotate. mstep. rewrite decide_True by lia.
    rewrite Htl. unfold deref. rewrite Ht. mstep.
    eexists. split; [reflexivity|]. split.
    { cbn. rewrite length_app. cbn. lia. }
    intros _. destruct ls as [|l0 ls].
    + destruct ys; [|done]. cbn in Hhd. injection Hhd as <-.
      injection Hxs as -> ->. exists [t], t. cbn.
      do 3 (split; [done|]). split; [done|]. by eexists.
    + destruct ys as [|y0 ys]; [done|]. cbn in Hhd. injection Hhd as <-.
      destruct Hch as (_ & nx & Hl0 & Hch). injection Hxs as -> ->.
      destruct (chain_next_head _ _ _ _ _ Hch) as (hd' & -> & Hhd').
      exists ((ls ++ [t]) ++ [l0]), hd'. split.
      { change ((l0 :: ls) ++ [t]) with (l0 :: (ls ++ [t])) in Hnd.
        by rewrite <- Permutation_cons_append. }
      split.
      { destruct ls; cbn in *; done. }
      split; [cbn; by rewrite last_snoc|]. cbn.
      apply chain_snoc; [|done]. by apply chain_snoc.
Qed.

Lemma circular_queue_step (o : cop A) q xs :
  circular_repr q xs ->
  fst (circular_queue_call o q) = fst (ListQueue.call_circular o xs) /\
  circular_repr (snd (circular_queue_call o q)) (snd (ListQueue.call_circular o xs)).
Proof.
  intros Hrep. pose proof (proj1 Hrep) as Hsz.
  destruct o as [[e| | | |]|];
    unfold circular_queue_call, queue_call, ListQueue.call_circular, ListQueue.call.
  - destruct (circular_enqueue_spec q xs e Hrep) as (q' & Hq' & Hrep').
    unfold bind. rewrite Hq'. done.
  - destruct xs as [|x xs].
    + unfold bind. rewrite (proj1 (circular_empty_calls q Hsz)). done.
    + destruct (circular_dequeue_spec q x xs Hrep) as (q' & Hq' & Hrep').
      unfold bind. rewrite Hq'. done.
  - destruct xs as [|x xs].
    + unfold bind. rewrite (proj2 (circular_empty_calls q Hsz)). done.
    + unfold bind. rewrite (circular_first_ok q x xs Hrep). done.
  - unfold __len__. mstep. unfold ret. cbn [fst snd]. by rewrite Hsz.
  - unfold is_empty. mstep. unfold ret. cbn [fst snd]. by rewrite Hsz.
  - destruct (circular_rotate_spec q xs Hrep) as (q' & Hq' & Hrep').
    unfold bind. rewrite Hq'. done.
Qed.

(** X16. The [CircularQueue] is a first-in first-out queue with a rotation:
    any sequence of calls of [enqueue], [dequeue], [first], [len], [is_empty]
    and [rotate] on a new queue, in any order, returns and raises what the
    same calls do on a list to which [enqueue] appends, from whose front
    [dequeue] takes, and whose first element [rotate] moves to the back (an
    empty list being left as it is); [dequeue] and [first] raise [Empty]
    exactly when the list is empty, and no call raises anything else. *)
Theorem X16_circular_queue_is_fifo (ops : list (cop A)) :
  trace circular_queue_call ops CircularQueue.__init__
  = trace ListQueue.call_circular ops [].
Proof.
  apply (trace_refines circular_repr).
  - intros o s t. apply circular_queue_step.
  - done.
Qed.

End CircularQueueAsList.

(** ** The deque as a list *)

Lemma trace_refines_on {S T O B} (R : S -> T -> Prop) (ok : O -> bool)
    (impl : O -> M S B) (model : O -> M T B) :
  (forall o s t, ok o = true -> R s t ->
     fst (impl o s) = fst (model o t) /\ R (snd (impl o s)) (snd (model o t))) ->
  forall ops s t, forallb ok ops = true -> R s t ->
    trace impl ops s = trace model ops t /\
    R (final impl ops s) (final model ops t).
Proof.
  intros Hstep ops. induction ops as [|o ops IH]; intros s t Hok HR; [done|].
  cbn [forallb] in Hok. apply andb_true_iff in Hok as [Ho Hok].
  destruct (Hstep o s t Ho HR) as [Hfst Hsnd]. cbn [trace final].
  destruct (IH _ _ Hok Hsnd) as [-> ?]. by rewrite Hfst.
Qed.

Section ArrayDequeAsList.
Context {A : Type} `{EqDecision A}.
Import ArrayDeque.
Implicit Types (d : ArrayDeque.t A) (e v x : option A) (xs : list (option A)).

Lemma deque_call_state (o : op A) d : snd (deque_call o d) = snd (exec o d).
Proof.
  destruct o; unfold deque_call, exec; rewrite ?snd_bind_ret_any; try done;
    by rewrite (snd_bind_ret_any _ (fun _ => tt)).
Qed.

Lemma deque_empty_calls d :
  _size d = 0 ->
  delete_first d = (Raise Empty, d) /\ delete_last d = (Raise Empty, d) /\
  first d = (Raise Empty, d) /\ ArrayDeque.last d = (Raise Empty, d).
Proof.
  intros Hz. unfold delete_first, delete_last, first, ArrayDeque.last, is_empty.
  mstep. by rewrite bool_decide_eq_true_2.
Qed.

Lemma deque_step (o : op A) d xs :
  ListDeque.covers o = true -> deque_holds d xs ->
  fst (deque_call o d) = fst (ListDeque.call o xs) /\
  deque_holds (snd (deque_call o d)) (snd (ListDeque.call o xs)).
Proof.
  intros Hcov (Hwf & Hm & Hel).
  assert (_size d = len xs) as Hlen.
  { pose proof (length_elements d) as Hl. pose proof (wf_size _ Hwf).
    rewrite Hel in Hl. unfold len. lia. }
  pose proof (wf_capacity _ Hwf) as Hcap.
  assert (wf (snd (deque_call o d)) /\ maxlen_valid (_maxlen (snd (deque_call o d))))
    as [Hwf' Hm'].
  { rewrite deque_call_state. split.
    - apply exec_wf; [by destruct o|done|done].
    - by rewrite (exec_keeps_maxlen o d). }
  cut (fst (deque_call o d) = fst (ListDeque.call o xs) /\
       elements (snd (deque_call o d)) = snd (ListDeque.call o xs)).
  { intros [? ?]. split; [done|]. by split. }
  clear Hwf' Hm'.
  destruct o as [e|e| | |value|n| |i v|i| | |value| | |]; try discriminate Hcov;
    unfold deque_call, ListDeque.call.
  - (* add_first *)
    destruct (add_first_spec d e Hwf) as (d' & Hd' & _ & Hel' & _).
    unfold bind. rewrite Hd'. split; [done|]. cbn. by rewrite Hel', Hel.
  - (* add_last *)
    destruct (add_last_spec d e Hwf) as (d' & Hd' & _ & Hel' & _).
    unfold bind. rewrite Hd'. split; [done|]. cbn. by rewrite Hel', Hel.
  - (* delete_first *)
    destruct xs as [|x xs'].
    + unfold bind. rewrite (proj1 (deque_empty_calls d Hlen)). done.
    + destruct (delete_first_spec d Hwf) as (d' & Hd' & _ & Hel' & _).
      { rewrite Hlen. unfold len. cbn. lia. }
      rewrite Hel in Hel'. injection Hel' as Hx Hxs.
      unfold bind. rewrite Hd'. cbn. by rewrite <- Hx, Hxs.
  - (* delete_last *)
    destruct xs as [|x xs' _] using rev_ind.
    + unfold bind. rewrite (proj1 (proj2 (deque_empty_calls d Hlen))). done.
    + destruct (delete_last_spec d Hwf) as (d' & Hd' & _ & Hel' & _).
      { rewrite Hlen. unfold len. rewrite length_app. cbn. lia. }
      rewrite Hel in Hel'. apply app_inj_tail in Hel' as [Hxs Hx].
      rewrite (bind_get _ (xs' ++ [x])), last_snoc, removelast_last.
      unfold bind. rewrite Hd'. cbn. by rewrite <- Hx, Hxs.
  - (* rotate *)
    destruct xs as [|x xs'].
    + unfold bind. rewrite (rotate_empty d n Hlen). cbn.
      by case_decide.
    + assert (0 < _size d) as Hpos by (rewrite Hlen; unfold len; cbn; lia).
      rewrite (bind_get _ (x :: xs')). cbn iota.
      destruct (decide (0 <= n)) as [Hn|Hn].
      * destruct (rotate_right_ok d n Hwf Hpos Hn) as (d' & Hd' & _ & _ & Hel').
        unfold bind. rewrite Hd'. cbn. by rewrite Hel', Hel.
      * destruct (rotate_left_ok d n Hwf Hpos ltac:(lia)) as (d' & Hd' & _ & _ & Hel').
        unfold bind. rewrite Hd'. cbn. by rewrite Hel', Hel.
  - (* clear *)
    assert (clear d = (Ok tt, __init__ (_maxlen d))) as Hclear by (by destruct d).
    unfold bind. rewrite Hclear. done.
  - (* __setitem__ *)
    destruct i as [|i|]; [done| |done].
    rewrite (bind_get _ xs). unfold ListDeque.at_index.
    destruct (decide (- len xs <= i <= len xs - 1)) as [Hi|Hi].
    + destruct (setitem_spec d i v Hwf ltac:(lia)) as (d' & Hd' & _ & Hel' & _).
      unfold bind. rewrite Hd'. cbn. by rewrite Hel', Hlen, Hel.
    + assert (__setitem__ (IdxInt i) v d = (Raise IndexError, d)) as Hf
        by (apply (deque_failed_call (SetItem (IdxInt i) v) d); cbn; lia).
      unfold bind. rewrite Hf. done.
  - (* __getitem__ *)
    destruct i as [|i|]; [done| |done].
    rewrite (bind_get _ xs). unfold ListDeque.at_index.
    destruct (decide (- len xs <= i <= len xs - 1)) as [Hi|Hi].
    + destruct (getitem_range d i ltac:(done)) as (Hin & _).
      destruct (Hin ltac:(lia)) as (x & Hx).
      pose proof (getitem_elements_lookup d i x Hx ltac:(lia)) as Hlk.
      rewrite Hlen, Hel in Hlk.
      unfold bind. rewrite Hx. cbn. by rewrite Hlk.
    + unfold bind. rewrite getitem_out_of_range by lia. done.
  - (* first *)
    destruct xs as [|x xs'].
    + unfold bind. rewrite (proj1 (proj2 (proj2 (deque_empty_calls d Hlen)))). done.
    + assert (0 < _size d) as Hpos by (rewrite Hlen; unfold len; cbn; lia).
      pose proof (lookup_elements d 0 ltac:(lia)) as Hlk.
      rewrite Hel in Hlk. change (Z.of_nat 0) with 0 in Hlk. injection Hlk as Hx.
      unfold bind. rewrite first_ok by done. cbn. by rewrite <- Hx.
  - (* last *)
    destruct xs as [|x xs' _] using rev_ind.
    + unfold bind. rewrite (proj2 (proj2 (proj2 (deque_empty_calls d Hlen)))). done.
    + assert (0 < _size d) as Hpos
        by (rewrite Hlen; unfold len; rewrite length_app; cbn; lia).
      pose proof (slot_lookup d (_size d - 1) ltac:(lia)) as Hlk.
      rewrite Hel in Hlk.
      rewrite list_lookup_middle in Hlk
        by (rewrite Hlen; unfold len; rewrite length_app; cbn; lia).
      injection Hlk as Hx.
      rewrite (bind_get _ (xs' ++ [x])), last_snoc.
      unfold bind. rewrite last_ok by done. cbn. by rewrite <- Hx.
  - (* count *)
    unfold bind. rewrite count_ok by done. cbn. by rewrite Hel.
  - (* __len__ *)
    unfold __len__. mstep. unfold ret. cbn [fst snd]. by rewrite Hlen.
  - (* is_empty *)
    unfold is_empty. mstep. unfold ret. cbn [fst snd]. by rewrite Hlen.
Qed.

(** X17. Without [remove], the [ArrayDeque] is a double-ended queue: on a
    deque constructed without [maxlen] or with one that is not negative, any
    sequence of calls of [add_first], [add_last], [delete_first],
    [delete_last], [first], [last], [rotate], [clear], [deque[i]],
    [deque[i] = v], [count], [len] and [is_empty], in any order, returns and
    raises what the same calls do on a list, across the wrap-around of the
    indices and the resizes.  The calls that raise are those on the list:
    [Empty] for a removal or a peek on the empty deque and for [rotate(k)],
    [k] not 0, on the empty deque; [IndexError] for an index outside
    [-n .. n-1]; [NotImplementedError] for a slice and [TypeError] for an
    index of another type. *)
Theorem X17_array_deque_is_deque (maxlen : option Z) (ops : list (op A)) :
  maxlen_valid maxlen -> forallb ListDeque.covers ops = true ->
  trace deque_call ops (__init__ maxlen) = trace ListDeque.call ops [].
Proof.
  intros Hm Hops.
  apply (trace_refines_on deque_holds ListDeque.covers deque_call ListDeque.call);
    [apply deque_step|done|].
  split; [by apply init_wf|]. split; [done|]. by destruct maxlen.
Qed.

End ArrayDequeAsList.

(** ** [remove] at the two ends *)

Section ArrayDequeRemove.
Context {A : Type} `{EqDecision A}.
Import ArrayDeque.
Implicit Types (d : ArrayDeque.t A) (value : option A).

Lemma range_up_from (s : Z) (a m : nat) :
  map (fun k => s + Z.of_nat k) (seq a m)
  = map (fun k => s + Z.of_nat a + Z.of_nat k) (seq 0 m).
Proof.
  revert s a. induction m as [|m IH]; intros s a; [done|].
  cbn [seq map]. f_equal; [lia|].
  rewrite (IH s (S a)), (IH (s + Z.of_nat a) 1%nat).
  apply map_ext. intros k. lia.
Qed.

Lemma range_split (n i : Z) :
  0 <= i < n -> range n = range i ++ i :: range_up (i + 1) n.
Proof.
  intros Hi. unfold range, range_up.
  replace (Z.to_nat (n - 0)) with (Z.to_nat (i - 0) + S (Z.to_nat (n - (i + 1))))%nat by lia.
  rewrite seq_app, map_app. cbn [seq map]. f_equal. f_equal; [lia|].
  rewrite range_up_from. apply map_ext. intros k. lia.
Qed.

(** The search loop of [remove] stops at the first slot that holds [value]. *)
Lemma remove_scan_found d value (xs ys : list Z) (i : Z) :
  0 < capacity d ->
  (forall j, j ∈ xs -> slot d j <> value) -> slot d i = value ->
  for_break (xs ++ i :: ys) (fun i =>
    self <- get ;;
    current <- lift (py_mod (_front self + i) (len (_data self))) ;;
    x <- lift (py_getitem (_data self) current) ;;
    ret (bool_decide (x = value))) d = (Ok (Some i), d).
Proof.
  intros Hc. unfold capacity in Hc. induction xs as [|j xs IH]; intros Hxs Hi.
  - cbn [app for_break]. mstep. rewrite py_mod_ok by lia. mstep.
    rewrite py_getitem_ok by (apply mod_range; lia). mstep.
    by rewrite bool_decide_eq_true_2.
  - cbn [app for_break]. mstep. rewrite py_mod_ok by lia. mstep.
    rewrite py_getitem_ok by (apply mod_range; lia). mstep.
    rewrite bool_decide_eq_false_2; [|apply Hxs; left].
    apply IH; [|done]. intros k Hk. apply Hxs. by right.
Qed.

(** X18. [remove(value)] does not remove an element that sits at an end of
    the deque: when the first occurrence of [value] is the front element, or
    the last element of a deque of three elements or more, the call returns
    without raising and leaves the deque exactly as it was, the element
    included. *)
Theorem X18_remove_at_an_end d value (i : Z) :
  0 < capacity d -> 0 <= i < _size d -> slot d i = value ->
  (forall j, 0 <= j < i -> slot d j <> value) ->
  i = 0 \/ (i = _size d - 1 /\ 3 <= _size d) ->
  remove value d = (Ok tt, d).
Proof.
  intros Hc Hi Hval Hfirst Hend. unfold remove. mstep.
  rewrite (range_split (_size d) i Hi). unfold bind at 1.
  rewrite remove_scan_found; [|done| |done].
  - mstep. destruct Hend as [->|[-> Hsz]].
    + rewrite decide_False by (pose proof (Z.div_pos (_size d) 2); lia). done.
    + rewrite decide_True
        by (pose proof (Z.div_lt_upper_bound (_size d) 2 (_size d - 1)); lia).
      unfold range_up. by rewrite Z.sub_diag.
  - intros j Hj. apply Hfirst. by apply elem_of_range.
Qed.

End ArrayDequeRemove.

(** ** Instances of the further properties *)

Lemma X1_witness :
  ArrayDeque.wf (deque_of None [1; 2; 3]) /\
  (exists d', ArrayDeque.add_first (Some 0) (deque_of None [1; 2; 3]) = (Ok tt, d') /\
     ArrayDeque.wf d' /\
     ArrayDeque.elements d' = Some 0 :: ArrayDeque.elements (deque_of None [1; 2; 3]) /\
     ArrayDeque._maxlen d' = ArrayDeque._maxlen (deque_of None [1; 2; 3]) /\
     ArrayDeque.capacity d'
     = (if decide (ArrayDeque._size (deque_of None [1; 2; 3])
                   = ArrayDeque.capacity (deque_of None [1; 2; 3]))
        then 2 * ArrayDeque.capacity (deque_of None [1; 2; 3])
        else ArrayDeque.capacity (deque_of None [1; 2; 3]))).
Proof.
  split; [exact wf_deque_of_three|].
  exact (proj1 (X1_add_at_both_ends (deque_of None [1; 2; 3]) (Some 0) wf_deque_of_three)).
Defined.

Lemma X2_witness :
  ArrayDeque.wf (deque_of None [1; 2; 3]) /\
  ArrayDeque.elements (deque_of None [1; 2; 3]) = Some 1 :: [Some 2; Some 3] /\
  ArrayDeque.first (deque_of None [1; 2; 3]) = (Ok (Some 1), deque_of None [1; 2; 3]) /\
  exists d', ArrayDeque.delete_first (deque_of None [1; 2; 3]) = (Ok (Some 1), d') /\
    ArrayDeque.wf d' /\ ArrayDeque.elements d' = [Some 2; Some 3] /\
    ArrayDeque.capacity d' = ArrayDeque.capacity (deque_of None [1; 2; 3]) /\
    ArrayDeque._maxlen d' = ArrayDeque._maxlen (deque_of None [1; 2; 3]).
Proof.
  split; [exact wf_deque_of_three|]. split; [reflexivity|].
  exact (X2_front_of_deque (deque_of None [1; 2; 3]) (Some 1) [Some 2; Some 3]
           wf_deque_of_three eq_refl).
Defined.

Lemma X3_witness :
  ArrayDeque.wf (deque_of None [1; 2; 3]) /\
  ArrayDeque.elements (deque_of None [1; 2; 3]) = [Some 1; Some 2] ++ [Some 3] /\
  ArrayDeque.last (deque_of None [1; 2; 3]) = (Ok (Some 3), deque_of None [1; 2; 3]) /\
  exists d', ArrayDeque.delete_last (deque_of None [1; 2; 3]) = (Ok (Some 3), d') /\
    ArrayDeque.wf d' /\ ArrayDeque.elements d' = [Some 1; Some 2] /\
    ArrayDeque.capacity d' = ArrayDeque.capacity (deque_of None [1; 2; 3]) /\
    ArrayDeque._front d' = ArrayDeque._front (deque_of None [1; 2; 3]) /\
    ArrayDeque._maxlen d' = ArrayDeque._maxlen (deque_of None [1; 2; 3]).
Proof.
  split; [exact wf_deque_of_three|]. split; [reflexivity|].
  exact (X3_back_of_deque (deque_of None [1; 2; 3]) (Some 3) [Some 1; Some 2]
           wf_deque_of_three eq_refl).
Defined.

Lemma X4_witness :
  0 < ArrayDeque.capacity (deque_of None [1; 2; 3]) /\
  - ArrayDeque._size (deque_of None [1; 2; 3]) <= -1
    <= ArrayDeque._size (deque_of None [1; 2; 3]) - 1 /\
  exists x,
    ArrayDeque.elements (deque_of None [1; 2; 3])
      !! normal_index (ArrayDeque._size (deque_of None [1; 2; 3])) (-1) = Some x /\
    ArrayDeque.__getitem__ (IdxInt (-1)) (deque_of None [1; 2; 3])
    = (Ok x, deque_of None [1; 2; 3]).
Proof.
  assert (0 < ArrayDeque.capacity (deque_of None [1; 2; 3])) as H1 by reflexivity.
  assert (- ArrayDeque._size (deque_of None [1; 2; 3]) <= -1
          <= ArrayDeque._size (deque_of None [1; 2; 3]) - 1) as H2
    by (split; vm_compute; congruence).
  split; [exact H1|]. split; [exact H2|].
  exact (X4_getitem_reads_contents (deque_of None [1; 2; 3]) (-1) H1 H2).
Defined.

Lemma X5_witness :
  ArrayDeque.wf (deque_of None [1; 2; 3]) /\
  - ArrayDeque._size (deque_of None [1; 2; 3]) <= -1
    <= ArrayDeque._size (deque_of None [1; 2; 3]) - 1 /\
  exists d',
    ArrayDeque.__setitem__ (IdxInt (-1)) (Some 9) (deque_of None [1; 2; 3]) = (Ok tt, d') /\
    ArrayDeque.wf d' /\
    ArrayDeque.elements d'
    = <[normal_index (ArrayDeque._size (deque_of None [1; 2; 3])) (-1):=Some 9]>
        (ArrayDeque.elements (deque_of None [1; 2; 3])) /\
    ArrayDeque._size d' = ArrayDeque._size (deque_of None [1; 2; 3]) /\
    ArrayDeque.capacity d' = ArrayDeque.capacity (deque_of None [1; 2; 3]) /\
    ArrayDeque._front d' = ArrayDeque._front (deque_of None [1; 2; 3]) /\
    ArrayDeque.__getitem__ (IdxInt (-1)) d' = (Ok (Some 9), d').
Proof.
  assert (- ArrayDeque._size (deque_of None [1; 2; 3]) <= -1
          <= ArrayDeque._size (deque_of None [1; 2; 3]) - 1) as H2
    by (split; vm_compute; congruence).
  split; [exact wf_deque_of_three|]. split; [exact H2|].
  exact (X5_setitem_replaces_one (deque_of None [1; 2; 3]) (-1) (Some 9)
           wf_deque_of_three H2).
Defined.

Lemma X6_witness :
  0 < ArrayDeque.capacity (deque_of None [1; 2; 1]) /\
  ArrayDeque.count (Some 1) (deque_of None [1; 2; 1])
  = (Ok (occurrences (Some 1) (ArrayDeque.elements (deque_of None [1; 2; 1]))),
     deque_of None [1; 2; 1]).
Proof.
  split; [reflexivity|].
  exact (X6_count_occurrences (deque_of None [1; 2; 1]) (Some 1) eq_refl).
Defined.

Lemma X8_witness :
  ArrayDeque.wf (deque_of None [1; 2; 3]) /\
  0 < ArrayDeque._size (deque_of None [1; 2; 3]) /\
  0 <= 1 <= ArrayDeque._size (deque_of None [1; 2; 3]) /\
  exists d', ArrayDeque.rotate 1 (deque_of None [1; 2; 3]) = (Ok tt, d') /\
    ArrayDeque.wf d' /\
    ArrayDeque._size d' = ArrayDeque._size (deque_of None [1; 2; 3]) /\
    ArrayDeque.elements d'
    = drop (Z.to_nat (ArrayDeque._size (deque_of None [1; 2; 3]) - 1))
        (ArrayDeque.elements (deque_of None [1; 2; 3]))
      ++ take (Z.to_nat (ArrayDeque._size (deque_of None [1; 2; 3]) - 1))
           (ArrayDeque.elements (deque_of None [1; 2; 3])).
Proof.
  assert (0 <= 1 <= ArrayDeque._size (deque_of None [1; 2; 3])) as H3
    by (split; vm_compute; congruence).
  split; [exact wf_deque_of_three|]. split; [reflexivity|]. split; [exact H3|].
  exact (proj1 (X8_rotate_moves_block (deque_of None [1; 2; 3]) 1
                  wf_deque_of_three eq_refl H3)).
Defined.

Lemma X9_witness :
  ArrayDeque._size (@ArrayDeque.__init__ Z None) = 0 /\
  ArrayDeque.rotate 1 (@ArrayDeque.__init__ Z None)
  = (if decide (1 = 0) then Ok tt else Raise Empty, ArrayDeque.__init__ None).
Proof.
  split; [reflexivity|].
  exact (X9_rotate_empty_raises (@ArrayDeque.__init__ Z None) 1 eq_refl).
Defined.

Lemma X10_witness :
  ArrayDeque.maxlen_valid (Some 3) /\
  forallb (fun o => negb (ArrayDeque.calls_remove o))
    [ArrayDeque.AddFirst (Some 1); ArrayDeque.Rotate (-1); ArrayDeque.DeleteLast;
     ArrayDeque.DeleteLast] = true /\
  ArrayDeque._maxlen
    (ArrayDeque.run
       [ArrayDeque.AddFirst (Some 1); ArrayDeque.Rotate (-1); ArrayDeque.DeleteLast;
        ArrayDeque.DeleteLast] (ArrayDeque.__init__ (Some 3))) = Some 3.
Proof.
  assert (ArrayDeque.maxlen_valid (Some 3)) as H1 by (vm_compute; congruence).
  split; [exact H1|]. split; [reflexivity|].
  exact (proj2 (proj2 (proj2
    (X10_invariant_without_remove (Some 3)
       [ArrayDeque.AddFirst (Some 1); ArrayDeque.Rotate (-1); ArrayDeque.DeleteLast;
        ArrayDeque.DeleteLast] H1 eq_refl)))).
Defined.

Lemma X13_witness :
  ArrayDeque.wf (as_deque (@ArrayQueue.__init__ Z)) /\
  len (ArrayQueue._data (snd (array_queue_call (Enqueue (Some 1)) ArrayQueue.__init__)))
  = (if decide (ArrayQueue._size (@ArrayQueue.__init__ Z)
                = len (ArrayQueue._data (@ArrayQueue.__init__ Z)))
     then 2 * len (ArrayQueue._data (@ArrayQueue.__init__ Z))
     else len (ArrayQueue._data (@ArrayQueue.__init__ Z))).
Proof.
  split; [exact queue_init_wf|].
  exact (X13_array_queue_growth (Enqueue (Some 1)) ArrayQueue.__init__ queue_init_wf).
Defined.


Lemma X17_witness :
  ArrayDeque.maxlen_valid (Some 2) /\
  forallb ListDeque.covers
    [ArrayDeque.AddLast (Some 1); ArrayDeque.AddFirst (Some 2); ArrayDeque.AddLast (Some 3);
     ArrayDeque.Rotate 1; ArrayDeque.GetItem (IdxInt (-1)); ArrayDeque.DeleteFirst;
     ArrayDeque.Clear; ArrayDeque.Last] = true /\
  trace deque_call
    [ArrayDeque.AddLast (Some 1); ArrayDeque.AddFirst (Some 2); ArrayDeque.AddLast (Some 3);
     ArrayDeque.Rotate 1; ArrayDeque.GetItem (IdxInt (-1)); ArrayDeque.DeleteFirst;
     ArrayDeque.Clear; ArrayDeque.Last] (ArrayDeque.__init__ (Some 2))
  = trace ListDeque.call
      [ArrayDeque.AddLast (Some 1); ArrayDeque.AddFirst (Some 2); ArrayDeque.AddLast (Some 3);
       ArrayDeque.Rotate 1; ArrayDeque.GetItem (IdxInt (-1)); ArrayDeque.DeleteFirst;
       ArrayDeque.Clear; ArrayDeque.Last] [].
Proof.
  assert (ArrayDeque.maxlen_valid (Some 2)) as H1 by (vm_compute; congruence).
  split; [exact H1|]. split; [reflexivity|].
  exact (X17_array_deque_is_deque (Some 2)
           [ArrayDeque.AddLast (Some 1); ArrayDeque.AddFirst (Some 2);
            ArrayDeque.AddLast (Some 3); ArrayDeque.Rotate 1;
            ArrayDeque.GetItem (IdxInt (-1)); ArrayDeque.DeleteFirst;
            ArrayDeque.Clear; ArrayDeque.Last] H1 eq_refl).
Defined.

Lemma X18_witness :
  0 < ArrayDeque.capacity (deque_of None [1; 2; 3]) /\
  0 <= 2 < ArrayDeque._size (deque_of None [1; 2; 3]) /\
  ArrayDeque.slot (deque_of None [1; 2; 3]) 2 = Some 3 /\
  (forall j, 0 <= j < 2 -> ArrayDeque.slot (deque_of None [1; 2; 3]) j <> Some 3) /\
  (2 = 0 \/ 2 = ArrayDeque._size (deque_of None [1; 2; 3]) - 1 /\
            3 <= ArrayDeque._size (deque_of None [1; 2; 3])) /\
  ArrayDeque.remove (Some 3) (deque_of None [1; 2; 3]) = (Ok tt, deque_of None [1; 2; 3]).
Proof.
  assert (0 <= 2 < ArrayDeque._size (deque_of None [1; 2; 3])) as H2
    by (split; vm_compute; congruence).
  assert (forall j, 0 <= j < 2 ->
            ArrayDeque.slot (deque_of None [1; 2; 3]) j <> Some 3) as H4.
  { intros j Hj. assert (j = 0 \/ j = 1) as [->| ->] by lia; vm_compute; congruence. }
  assert (2 = 0 \/ 2 = ArrayDeque._size (deque_of None [1; 2; 3]) - 1 /\
                   3 <= ArrayDeque._size (deque_of None [1; 2; 3])) as H5
    by (right; split; vm_compute; congruence).
  split; [reflexivity|]. split; [exact H2|]. split; [reflexivity|].
  split; [exact H4|]. split; [exact H5|].
  exact (X18_remove_at_an_end (deque_of None [1; 2; 3]) (Some 3) 2
           eq_refl H2 eq_refl H4 H5).
Defined.
